(** * Mental-arithmetic game: question generator and presentation sequencer

    A shallow embedding of [src/components/mental-arithmetic-game.tsx].

    - JavaScript numbers that hold integers are [Z].
    - [Math.random()] is a draw from an explicit random source: an infinite
      tape of rationals read at a cursor.  The browser guarantees every draw
      lies in [0,1); theorems that need it assume [unitTape].
    - [Math.floor (Math.random () * n)] is [Qfloor (r * n)], computed exactly.
    - The React component is a record of its [useState] cells; timers are
      kept in the world next to it, each with the values its closure
      captured. *)

From Stdlib Require Import ZArith QArith Qround Qminmax List String Bool Lia Lqa.
From Stdlib Require Import DecimalString.
Import ListNotations.

Local Open Scope Z_scope.

(** ** Type definitions (lines 5-38 of the source) *)

Record DigitTypes := mkDigitTypes {
  d1digit : bool;
  d2digit : bool;
  d3digit : bool
}.

Inductive OperationsMode := addition | both.

Inductive ThemeName := default | ocean | forest | sunset | lavender.

Record GameSettings := mkSettings {
  digitTypes : DigitTypes;
  operations : OperationsMode;
  numQuestions : Z;
  numbersPerQuestion : Z;
  level : Z;
  theme : ThemeName
}.

Module Question.

Record t := mk {
  numbers : list Z;
  operations : list string;
  answer : Z
}.

End Question.

Inductive DigitType := D1digit | D2digit | D3digit.

(** ** The random source *)

Record Rng := mkRng {
  tape : nat -> Q;
  cursor : nat
}.

(** Every draw of the tape lies in [0,1), as [Math.random] promises. *)
Definition unitTape (g : Rng) : Prop :=
  forall n : nat, (0 <= tape g n)%Q /\ (tape g n < 1)%Q.

Module Rand.

(** Computations that read the random source. *)
Definition t (A : Type) : Type := Rng -> A * Rng.

Definition ret {A} (a : A) : t A := fun g => (a, g).

Definition bind {A B} (m : t A) (k : A -> t B) : t B :=
  fun g => let (a, g') := m g in k a g'.

(** [Math.random()] *)
Definition random : t Q :=
  fun g => (tape g (cursor g), mkRng (tape g) (S (cursor g))).

End Rand.

Notation "x <- m ;; k" := (Rand.bind m (fun x => k))
  (at level 61, m at next level, right associativity).

(** [Math.floor(Math.random() * n)] *)
Definition randomBelow (n : Z) : Rand.t Z :=
  r <- Rand.random ;;
  Rand.ret (Qfloor (r * inject_Z n)).

(** [Math.random() < 0.5] *)
Definition randomLtHalf : Rand.t bool :=
  r <- Rand.random ;;
  Rand.ret (match (r ?= 1 # 2)%Q with Lt => true | _ => false end).

(** [arr[i]] for a JavaScript number [i]: [None] stands for [undefined]. *)
Definition index {A} (l : list A) (i : Z) : option A :=
  if i <? 0 then None else nth_error l (Z.to_nat i).

(** ** generateNumber (lines 213-230) *)

Definition enabledTypes (s : GameSettings) : list DigitType :=
  let e := [] in
  let e := if d1digit (digitTypes s) then e ++ [D1digit] else e in
  let e := if d2digit (digitTypes s) then e ++ [D2digit] else e in
  let e := if d3digit (digitTypes s) then e ++ [D3digit] else e in
  match e with
  | [] => e ++ [D1digit]
  | _ => e
  end.

Definition generateNumber (s : GameSettings) : Rand.t Z :=
  let enabled := enabledTypes s in
  i <- randomBelow (Z.of_nat (List.length enabled)) ;;
  match index enabled i with
  | Some D1digit => k <- randomBelow 9 ;; Rand.ret (k + 1)
  | Some D2digit => k <- randomBelow 90 ;; Rand.ret (k + 10)
  | _ => k <- randomBelow 900 ;; Rand.ret (k + 100)
  end.

(** ** generateQuestion (lines 233-273) *)

(** Lines 244-252: the operator first chosen for [nextNumber]. *)
Definition chooseOp (s : GameSettings) (runningTotal nextNumber : Z)
  : Rand.t string :=
  match operations s with
  | addition => Rand.ret "+"%string
  | both =>
      if runningTotal >? nextNumber
      then b <- randomLtHalf ;; Rand.ret (if b then "+" else "-")%string
      else Rand.ret "+"%string
  end.

(** Line 254: the condition of the subtraction guard. *)
Definition repairGuard (op : string) (runningTotal nextNumber : Z) : bool :=
  (op =? "-")%string && (runningTotal - nextNumber <? 0).

(** Lines 255-259: the repair, which may redraw the operand or change the
    operator. *)
Definition repair (op : string) (runningTotal nextNumber : Z)
  : Rand.t (string * Z) :=
  if runningTotal >? 1
  then k <- randomBelow (runningTotal - 1) ;; Rand.ret (op, k + 1)
  else Rand.ret ("+"%string, nextNumber).

(** The mutable locals of [generateQuestion]. *)
Module Locals.

Record t := mk {
  numbers : list Z;
  operations : list string;
  runningTotal : Z
}.

End Locals.

(** One iteration of the [for] loop (lines 241-269). *)
Definition loopBody (s : GameSettings) (l : Locals.t) : Rand.t Locals.t :=
  nextNumber <- generateNumber s ;;
  op <- chooseOp s (Locals.runningTotal l) nextNumber ;;
  opn <- (if repairGuard op (Locals.runningTotal l) nextNumber
          then repair op (Locals.runningTotal l) nextNumber
          else Rand.ret (op, nextNumber)) ;;
  let (op, nextNumber) := opn : string * Z in
  Rand.ret
    (Locals.mk (Locals.numbers l ++ [nextNumber])
              (Locals.operations l ++ [op])
              (if (op =? "+")%string
               then Locals.runningTotal l + nextNumber
               else Locals.runningTotal l - nextNumber)).

(** [iters] further iterations of the loop. *)
Fixpoint loop (s : GameSettings) (iters : nat) (l : Locals.t) : Rand.t Locals.t :=
  match iters with
  | O => Rand.ret l
  | S iters' => l' <- loopBody s l ;; loop s iters' l'
  end.

(** [for (let i = 1; i < n; i++)] runs [n - 1] times, and not at all when
    [n <= 1]. *)
Definition iterations (s : GameSettings) : nat :=
  Z.to_nat (numbersPerQuestion s - 1).

Definition generateQuestion (s : GameSettings) : Rand.t Question.t :=
  runningTotal <- generateNumber s ;;
  l <- loop s (iterations s) (Locals.mk [runningTotal] [] runningTotal) ;;
  Rand.ret (Question.mk (Locals.numbers l) (Locals.operations l) (Locals.runningTotal l)).

(** The batch loop of [startGame] (lines 294-297). *)
Fixpoint questionsLoop (s : GameSettings) (iters : nat) (questions : list Question.t)
  : Rand.t (list Question.t) :=
  match iters with
  | O => Rand.ret questions
  | S iters' =>
      q <- generateQuestion s ;;
      questionsLoop s iters' (questions ++ [q])
  end.

Definition generateQuestions (s : GameSettings) : Rand.t (list Question.t) :=
  questionsLoop s (Z.to_nat (numQuestions s)) [].

(** A fixed tape used in the examples: 0, 1/7, 2/7, ..., 6/7, 0, ... *)
Definition sevenths : Rng :=
  mkRng (fun n => inject_Z (Z.of_nat (n mod 7)) / 7)%Q 0.

Definition defaultSettings : GameSettings :=
  mkSettings (mkDigitTypes true true false) both 10 10 1 default.


(** ** The component state (lines 36-38 and 61-76) *)

Inductive GameState := setup | playing | paused | results.

Inductive SoundType :=
  getReady | calculating | answerReveal | questionComplete | gameStart
| gameComplete | pause | resume | buttonClick | settingChange.

Record Component := mkComponent {
  gameState : GameState;
  settings : GameSettings;
  nextQuestionNumber : Z;
  currentQuestion : Z;
  currentNumberIndex : Z;
  currentNumbers : list Z;
  currentOperations : list string;
  showingAnswer : bool;
  calculatingAnswer : bool;
  showingGetReady : bool;
  flashingBetweenNumbers : bool;
  answer : Z;
  allQuestions : list Question.t;
  displayNumber : string;
  isPaused : bool
}.

(** The state setters returned by [useState]. *)
Definition setGameState (v : GameState) (c : Component) : Component :=
  mkComponent v (settings c) (nextQuestionNumber c) (currentQuestion c) (currentNumberIndex c) (currentNumbers c) (currentOperations c) (showingAnswer c) (calculatingAnswer c) (showingGetReady c) (flashingBetweenNumbers c) (answer c) (allQuestions c) (displayNumber c) (isPaused c).

Definition setSettings (v : GameSettings) (c : Component) : Component :=
  mkComponent (gameState c) v (nextQuestionNumber c) (currentQuestion c) (currentNumberIndex c) (currentNumbers c) (currentOperations c) (showingAnswer c) (calculatingAnswer c) (showingGetReady c) (flashingBetweenNumbers c) (answer c) (allQuestions c) (displayNumber c) (isPaused c).

Definition setNextQuestionNumber (v : Z) (c : Component) : Component :=
  mkComponent (gameState c) (settings c) v (currentQuestion c) (currentNumberIndex c) (currentNumbers c) (currentOperations c) (showingAnswer c) (calculatingAnswer c) (showingGetReady c) (flashingBetweenNumbers c) (answer c) (allQuestions c) (displayNumber c) (isPaused c).

Definition setCurrentQuestion (v : Z) (c : Component) : Component :=
  mkComponent (gameState c) (settings c) (nextQuestionNumber c) v (currentNumberIndex c) (currentNumbers c) (currentOperations c) (showingAnswer c) (calculatingAnswer c) (showingGetReady c) (flashingBetweenNumbers c) (answer c) (allQuestions c) (displayNumber c) (isPaused c).

Definition setCurrentNumberIndex (v : Z) (c : Component) : Component :=
  mkComponent (gameState c) (settings c) (nextQuestionNumber c) (currentQuestion c) v (currentNumbers c) (currentOperations c) (showingAnswer c) (calculatingAnswer c) (showingGetReady c) (flashingBetweenNumbers c) (answer c) (allQuestions c) (displayNumber c) (isPaused c).

Definition setCurrentNumbers (v : list Z) (c : Component) : Component :=
  mkComponent (gameState c) (settings c) (nextQuestionNumber c) (currentQuestion c) (currentNumberIndex c) v (currentOperations c) (showingAnswer c) (calculatingAnswer c) (showingGetReady c) (flashingBetweenNumbers c) (answer c) (allQuestions c) (displayNumber c) (isPaused c).

Definition setCurrentOperations (v : list string) (c : Component) : Component :=
  mkComponent (gameState c) (settings c) (nextQuestionNumber c) (currentQuestion c) (currentNumberIndex c) (currentNumbers c) v (showingAnswer c) (calculatingAnswer c) (showingGetReady c) (flashingBetweenNumbers c) (answer c) (allQuestions c) (displayNumber c) (isPaused c).

Definition setShowingAnswer (v : bool) (c : Component) : Component :=
  mkComponent (gameState c) (settings c) (nextQuestionNumber c) (currentQuestion c) (currentNumberIndex c) (currentNumbers c) (currentOperations c) v (calculatingAnswer c) (showingGetReady c) (flashingBetweenNumbers c) (answer c) (allQuestions c) (displayNumber c) (isPaused c).

Definition setCalculatingAnswer (v : bool) (c : Component) : Component :=
  mkComponent (gameState c) (settings c) (nextQuestionNumber c) (currentQuestion c) (currentNumberIndex c) (currentNumbers c) (currentOperations c) (showingAnswer c) v (showingGetReady c) (flashingBetweenNumbers c) (answer c) (allQuestions c) (displayNumber c) (isPaused c).

Definition setShowingGetReady (v : bool) (c : Component) : Component :=
  mkComponent (gameState c) (settings c) (nextQuestionNumber c) (currentQuestion c) (currentNumberIndex c) (currentNumbers c) (currentOperations c) (showingAnswer c) (calculatingAnswer c) v (flashingBetweenNumbers c) (answer c) (allQuestions c) (displayNumber c) (isPaused c).

Definition setFlashingBetweenNumbers (v : bool) (c : Component) : Component :=
  mkComponent (gameState c) (settings c) (nextQuestionNumber c) (currentQuestion c) (currentNumberIndex c) (currentNumbers c) (currentOperations c) (showingAnswer c) (calculatingAnswer c) (showingGetReady c) v (answer c) (allQuestions c) (displayNumber c) (isPaused c).

Definition setAnswer (v : Z) (c : Component) : Component :=
  mkComponent (gameState c) (settings c) (nextQuestionNumber c) (currentQuestion c) (currentNumberIndex c) (currentNumbers c) (currentOperations c) (showingAnswer c) (calculatingAnswer c) (showingGetReady c) (flashingBetweenNumbers c) v (allQuestions c) (displayNumber c) (isPaused c).

Definition setAllQuestions (v : list Question.t) (c : Component) : Component :=
  mkComponent (gameState c) (settings c) (nextQuestionNumber c) (currentQuestion c) (currentNumberIndex c) (currentNumbers c) (currentOperations c) (showingAnswer c) (calculatingAnswer c) (showingGetReady c) (flashingBetweenNumbers c) (answer c) v (displayNumber c) (isPaused c).

Definition setDisplayNumber (v : string) (c : Component) : Component :=
  mkComponent (gameState c) (settings c) (nextQuestionNumber c) (currentQuestion c) (currentNumberIndex c) (currentNumbers c) (currentOperations c) (showingAnswer c) (calculatingAnswer c) (showingGetReady c) (flashingBetweenNumbers c) (answer c) (allQuestions c) v (isPaused c).

Definition setIsPaused (v : bool) (c : Component) : Component :=
  mkComponent (gameState c) (settings c) (nextQuestionNumber c) (currentQuestion c) (currentNumberIndex c) (currentNumbers c) (currentOperations c) (showingAnswer c) (calculatingAnswer c) (showingGetReady c) (flashingBetweenNumbers c) (answer c) (allQuestions c) (displayNumber c) v.

(** [setCurrentNumberIndex(f)] with an updater function [f]. *)
Definition modifyCurrentNumberIndex (f : Z -> Z) (c : Component) : Component :=
  setCurrentNumberIndex (f (currentNumberIndex c)) c.

(** ** Timers and what the program emits *)

(** A callback passed to [setTimeout] by the game-logic effect, together
    with the values of the render that its closure captured.  The effect
    returns [clearTimeout] for each of them as its cleanup. *)
Inductive EffectCallback :=
| answerShown (currentQuestion : Z) (allQuestions : list Question.t)
| calculatingDone (answer : Z)
| flashDone (currentNumberIndex : Z) (currentNumbers : list Z)
| numberShown (currentNumberIndex : Z) (currentNumbers : list Z).

(** A callback passed to [setTimeout] whose handle is dropped: nothing in
    the program can cancel it. *)
Inductive LooseCallback :=
| getReadyFirst (questions : list Question.t)
| getReadyNext (currentQuestion : Z) (allQuestions : list Question.t).

Record Timer (Callback : Type) := mkTimer {
  delayMs : Q;
  callback : Callback
}.

Arguments mkTimer {Callback} delayMs callback.
Arguments delayMs {Callback} _.
Arguments callback {Callback} _.

Inductive Output :=
| Alert (message : string)
| Sound (type : SoundType)
| TypeError.

(** The component with everything around it that the code touches. *)
Record World := mkWorld {
  st : Component;
  effectTimer : option (Timer EffectCallback);
  timeouts : list (Timer LooseCallback);
  rng : Rng;
  outputs : list Output
}.

Definition update (f : Component -> Component) (w : World) : World :=
  mkWorld (f (st w)) (effectTimer w) (timeouts w) (rng w) (outputs w).

Definition emit (o : Output) (w : World) : World :=
  mkWorld (st w) (effectTimer w) (timeouts w) (rng w) (outputs w ++ [o]).

Definition playSound (type : SoundType) : World -> World := emit (Sound type).

Definition alert (message : string) : World -> World := emit (Alert message).

(** [setTimeout(callback, delay)] with the handle dropped. *)
Definition setTimeout (cb : LooseCallback) (delay : Q) (w : World) : World :=
  mkWorld (st w) (effectTimer w) (timeouts w ++ [mkTimer delay cb]) (rng w)
          (outputs w).

Notation "w |> f" := (f w) (at level 45, left associativity, only parsing).

(** [n.toString()] *)
Definition toString (n : Z) : string := NilZero.string_of_int (Z.to_int n).

Arguments toString : simpl never.

(** ** getDelays (lines 206-210), in seconds *)

Definition numberDelay (level : Z) : Q :=
  Qmax (1 # 2) (2 - (inject_Z level - 1) * (1 # 2)).

Definition answerDelay (level : Z) : Q :=
  Qmax (8 # 10) (5 - (inject_Z level - 1) * (6 # 10)).

(** ** Game functions (lines 276-344) *)

(** Lines 313-316, shared by both get-ready callbacks.  Reading
    [numbers[0]] of an empty array gives [undefined], on which [toString]
    throws after the first three setters were called. *)
Definition showQuestion (q : Question.t) (w : World) : World :=
  let w := w |> update (setCurrentNumbers (Question.numbers q))
             |> update (setCurrentOperations (Question.operations q))
             |> update (setAnswer (Question.answer q)) in
  match index (Question.numbers q) 0 with
  | Some n => w |> update (setDisplayNumber (toString n))
  | None => w |> emit TypeError
  end.

Definition generateInto (w : World) : list Question.t * World :=
  let (questions, g) := generateQuestions (settings (st w)) (rng w) in
  (questions, mkWorld (st w) (effectTimer w) (timeouts w) g (outputs w)).

Definition startGame (w : World) : World :=
  let s := settings (st w) in
  let hasDigitType :=
    existsb (fun enabled => enabled)
            [d1digit (digitTypes s); d2digit (digitTypes s); d3digit (digitTypes s)] in
  if negb hasDigitType then
    w |> alert "Please select at least one number type!"
  else if numbersPerQuestion s <? 2 then
    w |> alert "Numbers per question must be at least 2!"
  else if numQuestions s <? 1 then
    w |> alert "Number of questions must be at least 1!"
  else
    let w := w |> playSound gameStart in
    let (questions, w) := generateInto w in
    w |> update (setAllQuestions questions)
      |> update (setCurrentQuestion 0)
      |> update (setNextQuestionNumber 1)
      |> update (setCurrentNumberIndex 0)
      |> update (setCalculatingAnswer false)
      |> update (setShowingAnswer false)
      |> update (setShowingGetReady true)
      |> update (setFlashingBetweenNumbers false)
      |> update (setIsPaused false)
      |> update (setGameState playing)
      |> setTimeout (getReadyFirst questions) 1000.

Definition pauseGame (w : World) : World :=
  w |> playSound pause
    |> update (setIsPaused true)
    |> update (setGameState paused).

Definition resumeGame (w : World) : World :=
  w |> playSound resume
    |> update (setIsPaused false)
    |> update (setGameState playing).

Definition restartGame (w : World) : World :=
  w |> update (setGameState setup)
    |> update (setCurrentQuestion 0)
    |> update (setNextQuestionNumber 1)
    |> update (setCurrentNumberIndex 0)
    |> update (setShowingAnswer false)
    |> update (setCalculatingAnswer false)
    |> update (setShowingGetReady false)
    |> update (setFlashingBetweenNumbers false)
    |> update (setIsPaused false)
    |> update (setAllQuestions []).

(** [updateSettings] (lines 79-87), as called from the setup screen. *)
Definition updateSettings (newSettings : GameSettings) (w : World) : World :=
  w |> update (setSettings newSettings).

(** ** Timer callbacks *)

(** The callbacks of lines 309-318 and 363-374. *)
Definition runLoose (cb : LooseCallback) (w : World) : World :=
  match cb with
  | getReadyFirst questions =>
      let w := w |> playSound getReady
                 |> update (setShowingGetReady false) in
      if (0 <? Z.of_nat (List.length questions)) then
        match index questions 0 with
        | Some q => showQuestion q w
        | None => w
        end
      else w
  | getReadyNext currentQuestion allQuestions =>
      let nextQuestionNum := currentQuestion + 1 in
      let w := w |> playSound getReady
                 |> update (setCurrentQuestion nextQuestionNum)
                 |> update (setCurrentNumberIndex 0)
                 |> update (setShowingGetReady false) in
      match index allQuestions nextQuestionNum with
      | Some nextQ => showQuestion nextQ w
      | None => w |> emit TypeError
      end
  end.

(** Lines 399-401 and 413-415. *)
Definition beginCalculating (w : World) : World :=
  w |> playSound calculating
    |> update (setDisplayNumber "Calculating...")
    |> update (setCalculatingAnswer true).

(** The callbacks of the game-logic effect (lines 354-379, 384-389,
    393-403 and 409-417). *)
Definition runEffectCallback (cb : EffectCallback) (w : World) : World :=
  match cb with
  | answerShown currentQuestion allQuestions =>
      let w := w |> playSound questionComplete in
      if currentQuestion <? Z.of_nat (List.length allQuestions) - 1 then
        w |> update (setNextQuestionNumber (currentQuestion + 2))
          |> update (setShowingGetReady true)
          |> update (setShowingAnswer false)
          |> update (setCalculatingAnswer false)
          |> update (setFlashingBetweenNumbers false)
          |> setTimeout (getReadyNext currentQuestion allQuestions) 1000
      else
        w |> playSound gameComplete
          |> update (setGameState results)
  | calculatingDone answer =>
      w |> playSound answerReveal
        |> update (setDisplayNumber (toString answer))
        |> update (setCalculatingAnswer false)
        |> update (setShowingAnswer true)
  | flashDone currentNumberIndex currentNumbers =>
      let w := w |> update (setFlashingBetweenNumbers false) in
      if currentNumberIndex <? Z.of_nat (List.length currentNumbers) - 1 then
        let w := w |> update (modifyCurrentNumberIndex (fun prev => prev + 1)) in
        match index currentNumbers (currentNumberIndex + 1) with
        | Some n => w |> update (setDisplayNumber (toString n))
        | None => w |> emit TypeError
        end
      else beginCalculating w
  | numberShown currentNumberIndex currentNumbers =>
      if currentNumberIndex <? Z.of_nat (List.length currentNumbers) - 1 then
        w |> update (setFlashingBetweenNumbers true)
      else beginCalculating w
  end.

(** ** The game-logic effect (lines 347-422) *)

(** The timer the effect arms when run in a render with state [c]; [None]
    when it returns without arming one. *)
Definition gameLogic (c : Component) : option (Timer EffectCallback) :=
  if negb (match gameState c with playing => true | _ => false end)
     || isPaused c || showingGetReady c
  then None
  else
    match index (allQuestions c) (currentQuestion c) with
    | None => None
    | Some currentQ =>
        if showingAnswer c then
          Some (mkTimer 2000 (answerShown (currentQuestion c) (allQuestions c)))
        else if calculatingAnswer c then
          Some (mkTimer (answerDelay (level (settings c)) * 1000)
                        (calculatingDone (answer c)))
        else if flashingBetweenNumbers c then
          Some (mkTimer 200 (flashDone (currentNumberIndex c) (currentNumbers c)))
        else if currentNumberIndex c <? Z.of_nat (List.length (currentNumbers c)) then
          Some (mkTimer (numberDelay (level (settings c)) * 1000)
                        (numberShown (currentNumberIndex c) (currentNumbers c)))
        else None
    end.

Arguments gameLogic : simpl never.

(** The dependency array of the effect (line 422). *)
Definition Deps : Type :=
  GameState * Z * Z * bool * bool * bool * bool * list Z * Z * GameSettings
  * list Question.t * bool.

Definition deps (c : Component) : Deps :=
  (gameState c, currentQuestion c, currentNumberIndex c, showingAnswer c,
   calculatingAnswer c, flashingBetweenNumbers c, showingGetReady c,
   currentNumbers c, answer c, settings c, allQuestions c, isPaused c).

Definition Deps_eq_dec (a b : Deps) : {a = b} + {a <> b}.
Proof. repeat decide equality. Defined.

Arguments Deps_eq_dec : simpl never.

(** React commits the state written by a handler or callback: when a
    dependency differs from the previous render [before], the cleanup of
    the effect clears its timer and the effect runs again.  Dependencies
    are compared by value here; React compares arrays and objects by
    identity, under which the effect can only run again more often, arming
    the timer of the same state. *)
Definition commit (before : Component) (w : World) : World :=
  if Deps_eq_dec (deps before) (deps (st w)) then w
  else mkWorld (st w) (gameLogic (st w)) (timeouts w) (rng w) (outputs w).

Arguments commit : simpl never.

(** ** Events *)

Inductive Event :=
| ClickStart
| ClickPause
| ClickResume
| ClickRestart
| ChangeSettings (newSettings : GameSettings)
| EffectTimerFires
| TimeoutFires (i : nat).

(** Which controls the rendered screen shows (lines 425-795): the setup
    screen has the settings and Start; the playing screen has Pause and
    Restart unless it shows Get Ready; the paused screen has Resume and
    Restart; the results screen has Restart. *)
Definition offered (c : Component) (e : Event) : bool :=
  match e, gameState c with
  | ClickStart, setup => true
  | ChangeSettings _, setup => true
  | ClickPause, playing => negb (showingGetReady c)
  | ClickRestart, playing => negb (showingGetReady c)
  | ClickResume, paused => true
  | ClickRestart, paused => true
  | ClickRestart, results => true
  | _, _ => false
  end.

(** Timers fire when pending; a control is clicked when shown. *)
Definition enabled (w : World) (e : Event) : bool :=
  match e with
  | EffectTimerFires => match effectTimer w with Some _ => true | None => false end
  | TimeoutFires i => (i <? List.length (timeouts w))%nat
  | _ => offered (st w) e
  end.

Definition removeNth {A} (i : nat) (l : list A) : list A :=
  firstn i l ++ skipn (S i) l.

Definition handle (e : Event) (w : World) : World :=
  match e with
  | ClickStart => w |> playSound buttonClick |> startGame
  | ClickPause => w |> playSound buttonClick |> pauseGame
  | ClickResume => w |> playSound buttonClick |> resumeGame
  | ClickRestart => w |> playSound buttonClick |> restartGame
  | ChangeSettings newSettings =>
      w |> playSound settingChange |> updateSettings newSettings
  | EffectTimerFires =>
      match effectTimer w with
      | Some t =>
          mkWorld (st w) None (timeouts w) (rng w) (outputs w)
            |> runEffectCallback (callback t)
      | None => w
      end
  | TimeoutFires i =>
      match nth_error (timeouts w) i with
      | Some t =>
          mkWorld (st w) (effectTimer w) (removeNth i (timeouts w)) (rng w) (outputs w)
            |> runLoose (callback t)
      | None => w
      end
  end.

Definition step (e : Event) (w : World) : World := commit (st w) (handle e w).

(** The component when first mounted (lines 62-76), with the settings that
    [loadSettings] returned. *)
Definition initialComponent (s : GameSettings) : Component :=
  mkComponent setup s 1 0 0 [] [] false false false false 0 [] "" false.

Definition initialWorld (s : GameSettings) (g : Rng) : World :=
  mkWorld (initialComponent s) None [] g [].

Inductive reachable : World -> Prop :=
| reachable_initial (s : GameSettings) (g : Rng) : reachable (initialWorld s g)
| reachable_step (w : World) (e : Event) :
    reachable w -> enabled w e = true -> reachable (step e w).

(** What holds in every reachable world: a dropped timeout is pending only
    during Get Ready, and then alone; the effect's timer is pending only
    while playing past Get Ready; [isPaused] says whether the game state is
    [paused]. *)
Definition worldInv (w : World) : Prop :=
  (timeouts w = [] \/
   (exists t, timeouts w = [t]) /\
   gameState (st w) = playing /\ showingGetReady (st w) = true) /\
  (effectTimer w <> None ->
   gameState (st w) = playing /\ showingGetReady (st w) = false) /\
  (isPaused (st w) = true <-> gameState (st w) = paused).

(** The events that are timers firing. *)
Definition isTimerEvent (e : Event) : bool :=
  match e with
  | EffectTimerFires | TimeoutFires _ => true
  | _ => false
  end.

(** The settings of the examples: 1- and 2-digit numbers, both operations,
    two questions of three numbers. *)
Definition smallSettings : GameSettings :=
  mkSettings (mkDigitTypes true true false) both 2 3 1 default.

Definition noDigitSettings : GameSettings :=
  mkSettings (mkDigitTypes false false false) both 2 3 1 default.

(** ** What the specification says a question means *)

(** Applying one operator symbol. *)
Definition applyOp (op : string) (a b : Z) : option Z :=
  if (op =? "+")%string then Some (a + b)
  else if (op =? "-")%string then Some (a - b)
  else None.

(** Starting from [acc], apply [ops[i]] with [rest[i]], in order. *)
Fixpoint applyOps (acc : Z) (ops : list string) (rest : list Z) : option Z :=
  match ops with
  | [] => Some acc
  | op :: ops' =>
      match rest with
      | [] => None
      | n :: rest' =>
          match applyOp op acc n with
          | Some v => applyOps v ops' rest'
          | None => None
          end
      end
  end.

(** Left-to-right evaluation: [nums[0]], then [ops[i]] applied with
    [nums[i+1]] for each [i]. *)
Definition evalLeft (nums : list Z) (ops : list string) : option Z :=
  match nums with
  | [] => None
  | n0 :: rest => applyOps n0 ops rest
  end.

(** The value after the first [k] operators. *)
Definition evalPrefix (k : nat) (nums : list Z) (ops : list string) : option Z :=
  evalLeft nums (firstn k ops).

Definition sum (nums : list Z) : Z := fold_right Z.add 0 nums.

(** The operand lies in the range of an enabled digit-size class, the
    1-digit class standing in when none is enabled. *)
Definition inEnabledClass (s : GameSettings) (n : Z) : Prop :=
  (d1digit (digitTypes s) = true /\ 1 <= n <= 9) \/
  (d2digit (digitTypes s) = true /\ 10 <= n <= 99) \/
  (d3digit (digitTypes s) = true /\ 100 <= n <= 999) \/
  (d1digit (digitTypes s) = false /\ d2digit (digitTypes s) = false /\
   d3digit (digitTypes s) = false /\ 1 <= n <= 9).

(** Two settings that agree on everything but [level]. *)
Definition sameExceptLevel (s1 s2 : GameSettings) : Prop :=
  digitTypes s1 = digitTypes s2 /\
  operations s1 = operations s2 /\
  numQuestions s1 = numQuestions s2 /\
  numbersPerQuestion s1 = numbersPerQuestion s2 /\
  theme s1 = theme s2.

(** The loop body with the subtraction guard and its repair taken out. *)
Definition loopBodyUnrepaired (s : GameSettings) (l : Locals.t) : Rand.t Locals.t :=
  nextNumber <- generateNumber s ;;
  op <- chooseOp s (Locals.runningTotal l) nextNumber ;;
  Rand.ret
    (Locals.mk (Locals.numbers l ++ [nextNumber])
              (Locals.operations l ++ [op])
              (if (op =? "+")%string
               then Locals.runningTotal l + nextNumber
               else Locals.runningTotal l - nextNumber)).

(** Run from any source admitted by [ok], [m] returns a value satisfying
    [P] and leaves the source admitted. *)
Definition returns (ok : Rng -> Prop) {A} (m : Rand.t A) (P : A -> Prop) : Prop :=
  forall g, ok g -> P (fst (m g)) /\ ok (snd (m g)).

(** No assumption on the random source. *)
Definition anyTape (g : Rng) : Prop := True.

(** Loop invariant that holds whatever the random source returns, with
    [n] iterations still to run out of [total]. *)
Definition shapeInv (s : GameSettings) (total n : nat) (l : Locals.t) : Prop :=
  List.length (Locals.numbers l) = S (List.length (Locals.operations l)) /\
  (List.length (Locals.operations l) + n = total)%nat /\
  evalLeft (Locals.numbers l) (Locals.operations l) = Some (Locals.runningTotal l) /\
  (operations s = addition ->
   Forall (eq "+"%string) (Locals.operations l) /\
   Locals.runningTotal l = sum (Locals.numbers l)).

(** Loop invariant that needs the draws to lie in [0,1). *)
Definition rangeInv (s : GameSettings) (l : Locals.t) : Prop :=
  List.length (Locals.numbers l) = S (List.length (Locals.operations l)) /\
  evalLeft (Locals.numbers l) (Locals.operations l) = Some (Locals.runningTotal l) /\
  (forall k, (k <= List.length (Locals.operations l))%nat ->
     exists v, evalPrefix k (Locals.numbers l) (Locals.operations l) = Some v /\ 1 <= v) /\
  Forall (inEnabledClass s) (Locals.numbers l).

(** ** The count inputs of the setup screen (lines 529-580)

    [parseInt] is the browser's; it is taken as a parameter, [None]
    standing for [NaN]. *)

Definition withNumQuestions (n : Z) (s : GameSettings) : GameSettings :=
  mkSettings (digitTypes s) (operations s) n (numbersPerQuestion s) (level s)
             (theme s).

Definition withNumbersPerQuestion (n : Z) (s : GameSettings) : GameSettings :=
  mkSettings (digitTypes s) (operations s) (numQuestions s) n (level s)
             (theme s).

(** Lines 534-544. *)
Definition onChangeNumQuestions (parseInt : string -> option Z) (value : string)
           (w : World) : World :=
  if (value =? "")%string then
    w |> updateSettings (withNumQuestions 0 (settings (st w)))
  else
    match parseInt value with
    | Some num =>
        if num >=? 0 then
          w |> updateSettings
                 (withNumQuestions (Z.min 50 (Z.max 0 num)) (settings (st w)))
        else w
    | None => w
    end.

(** Lines 545-549. *)
Definition onBlurNumQuestions (w : World) : World :=
  if numQuestions (settings (st w)) =? 0 then
    w |> updateSettings (withNumQuestions 1 (settings (st w)))
  else w.

(** Lines 562-572. *)
Definition onChangeNumbersPerQuestion (parseInt : string -> option Z)
           (value : string) (w : World) : World :=
  if (value =? "")%string then
    w |> updateSettings (withNumbersPerQuestion 0 (settings (st w)))
  else
    match parseInt value with
    | Some num =>
        if num >=? 0 then
          w |> updateSettings
                 (withNumbersPerQuestion (Z.min 20 (Z.max 0 num)) (settings (st w)))
        else w
    | None => w
    end.

(** Lines 573-577. *)
Definition onBlurNumbersPerQuestion (w : World) : World :=
  if numbersPerQuestion (settings (st w)) <? 2 then
    w |> updateSettings (withNumbersPerQuestion 2 (settings (st w)))
  else w.

(** ** The progress bar (line 686), in percent.  The division is exact
    here; the theorems about it show the denominator is not zero. *)
Definition progressWidth (c : Component) : Q :=
  (inject_Z (currentQuestion c * Z.of_nat (List.length (currentNumbers c))
             + currentNumberIndex c + (if showingAnswer c then 1 else 0))
   / inject_Z (numQuestions (settings c) * numbersPerQuestion (settings c)))
  * 100.

(** ** The browser firing whichever timer is pending *)

Definition pendingTimer (w : World) : option Event :=
  match effectTimer w with
  | Some _ => Some EffectTimerFires
  | None =>
      match timeouts w with
      | _ :: _ => Some (TimeoutFires 0)
      | [] => None
      end
  end.

Definition tick (w : World) : World :=
  match pendingTimer w with
  | Some e => step e w
  | None => w
  end.

Fixpoint ticks (n : nat) (w : World) : World :=
  match n with
  | O => w
  | S n' => ticks n' (tick w)
  end.

(** ** What holds of a game in progress *)

(** The settings pass the checks of [startGame] (lines 277-291). *)
Definition startable (s : GameSettings) : Prop :=
  (d1digit (digitTypes s) = true \/ d2digit (digitTypes s) = true \/
   d3digit (digitTypes s) = true) /\
  2 <= numbersPerQuestion s /\
  1 <= numQuestions s.

(** The batch is one that [startGame] makes from the settings. *)
Definition batchOk (s : GameSettings) (qs : list Question.t) : Prop :=
  1 <= numQuestions s /\
  2 <= numbersPerQuestion s /\
  Z.of_nat (List.length qs) = numQuestions s /\
  Forall (fun q =>
            Z.of_nat (List.length (Question.numbers q)) = numbersPerQuestion s /\
            Z.of_nat (List.length (Question.operations q)) = numbersPerQuestion s - 1 /\
            evalLeft (Question.numbers q) (Question.operations q)
            = Some (Question.answer q))
         qs.

(** The cursor points into the batch, and the copies of the current
    question held in the state are those of the question it points to. *)
Definition onQuestion (c : Component) : Prop :=
  exists q,
    index (allQuestions c) (currentQuestion c) = Some q /\
    currentNumbers c = Question.numbers q /\
    currentOperations c = Question.operations q /\
    answer c = Question.answer q /\
    Z.of_nat (List.length (currentNumbers c)) = numbersPerQuestion (settings c) /\
    0 <= currentNumberIndex c < numbersPerQuestion (settings c).

(** The four phase flags, in the order [showingAnswer],
    [calculatingAnswer], [showingGetReady], [flashingBetweenNumbers]. *)
Definition flagsAre (c : Component) (sa ca gr fl : bool) : Prop :=
  showingAnswer c = sa /\ calculatingAnswer c = ca /\
  showingGetReady c = gr /\ flashingBetweenNumbers c = fl.

(** The display holds the number under the cursor. *)
Definition showsNumber (c : Component) : Prop :=
  exists n,
    index (currentNumbers c) (currentNumberIndex c) = Some n /\
    displayNumber c = toString n.

Definition atLastNumber (c : Component) : Prop :=
  currentNumberIndex c = numbersPerQuestion (settings c) - 1.

(** Past Get Ready: a number is shown, or dimmed between two numbers, or
    the answer is being calculated, or the answer is shown. *)
Definition presenting (c : Component) : Prop :=
  onQuestion c /\
  ((flagsAre c false false false false /\ showsNumber c) \/
   (flagsAre c false false false true /\ showsNumber c /\
    currentNumberIndex c < numbersPerQuestion (settings c) - 1) \/
   (flagsAre c false true false false /\ atLastNumber c /\
    displayNumber c = "Calculating..."%string) \/
   (flagsAre c true false false false /\ atLastNumber c /\
    displayNumber c = toString (answer c))).

(** Get Ready before the first question, with the timeout of [startGame]
    pending. *)
Definition firstGetReady (w : World) : Prop :=
  flagsAre (st w) false false true false /\
  currentQuestion (st w) = 0 /\
  currentNumberIndex (st w) = 0 /\
  nextQuestionNumber (st w) = 1 /\
  timeouts w = [mkTimer 1000 (getReadyFirst (allQuestions (st w)))].

(** Get Ready between two questions, with the timeout of the transition
    pending. *)
Definition nextGetReady (w : World) : Prop :=
  flagsAre (st w) false false true false /\
  onQuestion (st w) /\
  nextQuestionNumber (st w) = currentQuestion (st w) + 2 /\
  currentQuestion (st w) + 1 < numQuestions (settings (st w)) /\
  timeouts w
  = [mkTimer 1000 (getReadyNext (currentQuestion (st w)) (allQuestions (st w)))].

(** What holds of the state, the dropped timeouts and the outputs. *)
Definition dataInv (w : World) : Prop :=
  ~ In TypeError (outputs w) /\
  match gameState (st w) with
  | setup =>
      isPaused (st w) = false /\ timeouts w = [] /\
      flagsAre (st w) false false false false
  | playing =>
      isPaused (st w) = false /\
      batchOk (settings (st w)) (allQuestions (st w)) /\
      (firstGetReady w \/ nextGetReady w \/
       (timeouts w = [] /\ presenting (st w)))
  | paused =>
      isPaused (st w) = true /\
      batchOk (settings (st w)) (allQuestions (st w)) /\
      timeouts w = [] /\ presenting (st w)
  | results =>
      isPaused (st w) = false /\
      batchOk (settings (st w)) (allQuestions (st w)) /\
      timeouts w = [] /\ presenting (st w) /\
      showingAnswer (st w) = true /\
      currentQuestion (st w) = numQuestions (settings (st w)) - 1
  end.

(** The invariant of the sequencer: the effect's timer is the one the
    effect arms for the current state, and the data is consistent. *)
Definition gameInv (w : World) : Prop :=
  effectTimer w = gameLogic (st w) /\ dataInv w.

(** Timer firings left before the results screen. *)
Definition remaining (c : Component) : Z :=
  let N := numbersPerQuestion (settings c) in
  let P := numQuestions (settings c) in
  match gameState c with
  | setup | results => 0
  | _ =>
      if showingGetReady c then (P - (nextQuestionNumber c - 1)) * (2 * N + 2)
      else
        (P - 1 - currentQuestion c) * (2 * N + 2)
        + (if showingAnswer c then 1
           else if calculatingAnswer c then 2
           else if flashingBetweenNumbers c
                then 2 * (N - currentNumberIndex c)
                else 2 * (N - currentNumberIndex c) + 1)
  end.

(** ** Runs *)

(** The events of [es] taken in order. *)
Definition run (es : list Event) (w : World) : World :=
  fold_left (fun w e => step e w) es w.

(** Every event of [es] is enabled when its turn comes. *)
Fixpoint runnable (es : list Event) (w : World) : bool :=
  match es with
  | [] => true
  | e :: es' => enabled w e && runnable es' (step e w)
  end.

(** One question of three numbers, from its Get Ready to the end of its
    answer: the get-ready timeout, then the effect's timer seven times. *)
Definition oneQuestion : list Event :=
  TimeoutFires 0 :: repeat EffectTimerFires 7.

(** Worlds of the examples, with [smallSettings]: during the first Get
    Ready, with the first number shown, paused there, with the first answer
    shown, during the second Get Ready, and on the results screen. *)
Definition freshWorld : World := initialWorld smallSettings sevenths.

Definition toGetReady : list Event := [ClickStart].

Definition toFirstNumber : list Event := [ClickStart; TimeoutFires 0].

Definition toPaused : list Event := [ClickStart; TimeoutFires 0; ClickPause].

Definition toFirstAnswer : list Event :=
  ClickStart :: TimeoutFires 0 :: repeat EffectTimerFires 6.

Definition toSecondGetReady : list Event := ClickStart :: oneQuestion.

Definition toResults : list Event := ClickStart :: oneQuestion ++ oneQuestion.

(** Loop invariant bounding every prefix value from both sides. *)
Definition boundInv (l : Locals.t) : Prop :=
  List.length (Locals.numbers l) = S (List.length (Locals.operations l)) /\
  evalLeft (Locals.numbers l) (Locals.operations l) = Some (Locals.runningTotal l) /\
  (forall k, (k <= List.length (Locals.operations l))%nat ->
     exists v, evalPrefix k (Locals.numbers l) (Locals.operations l) = Some v /\
               1 <= v <= 999 * (Z.of_nat k + 1)).

(** * Proofs *)

(** ** Reasoning about computations on the random source *)

Section Triples.

(** [ok] is what is assumed of the random source; it may only speak of
    the tape, never of the cursor. *)
Variable ok : Rng -> Prop.
Hypothesis ok_advance :
  forall g, ok g -> ok (mkRng (tape g) (S (cursor g))).

Local Abbreviation returns := (returns ok).

Lemma returns_ret {A} (a : A) (P : A -> Prop) :
  P a -> returns (Rand.ret a) P.
Proof. intros Ha g Hg. split; assumption. Qed.

Lemma returns_bind {A B} (m : Rand.t A) (k : A -> Rand.t B)
      (P : A -> Prop) (R : B -> Prop) :
  returns m P ->
  (forall a, P a -> returns (k a) R) ->
  returns (Rand.bind m k) R.
Proof.
  intros Hm Hk g Hg. unfold Rand.bind.
  destruct (Hm g Hg) as [Pa Hg'].
  destruct (m g) as [a g']. simpl in *.
  exact (Hk a Pa g' Hg').
Qed.

Lemma returns_weaken {A} (m : Rand.t A) (P R : A -> Prop) :
  returns m P -> (forall a, P a -> R a) -> returns m R.
Proof.
  intros Hm HPR g Hg. destruct (Hm g Hg). split; auto.
Qed.

Lemma returns_ext {A} (m m' : Rand.t A) (P : A -> Prop) :
  (forall g, m g = m' g) -> returns m' P -> returns m P.
Proof. intros E H g Hg. rewrite E. exact (H g Hg). Qed.

Lemma returns_random_any : returns Rand.random (fun _ => True).
Proof. intros g Hg. split; [exact I | apply ok_advance; exact Hg]. Qed.

(** Loop rule: [Inv n] is what holds with [n] iterations still to run. *)
Lemma returns_loop (s : GameSettings) (Inv : nat -> Locals.t -> Prop) :
  (forall n l, Inv (S n) l -> returns (loopBody s l) (Inv n)) ->
  forall iters l, Inv iters l -> returns (loop s iters l) (Inv O).
Proof.
  intros Hbody iters. induction iters as [|iters IH]; intros l Hl; simpl.
  - apply returns_ret. exact Hl.
  - eapply returns_bind.
    + apply Hbody. exact Hl.
    + intros l' Hl'. apply IH. exact Hl'.
Qed.

Lemma returns_questionsLoop (s : GameSettings) (P : Question.t -> Prop) :
  returns (generateQuestion s) P ->
  forall iters questions,
    Forall P questions ->
    returns (questionsLoop s iters questions) (Forall P).
Proof.
  intros Hq iters. induction iters as [|iters IH]; intros qs Hqs; simpl.
  - apply returns_ret. exact Hqs.
  - eapply returns_bind.
    + exact Hq.
    + intros q Pq. apply IH. apply Forall_app. split; [exact Hqs|].
      constructor; [exact Pq | constructor].
Qed.

End Triples.

Lemma unitTape_advance (g : Rng) :
  unitTape g -> unitTape (mkRng (tape g) (S (cursor g))).
Proof. intros H n. exact (H n). Qed.

Lemma anyTape_advance (g : Rng) :
  anyTape g -> anyTape (mkRng (tape g) (S (cursor g))).
Proof. intros _. exact I. Qed.

(** A draw from a unit tape lies in [0,1). *)
Lemma returns_random_unit :
  returns unitTape Rand.random (fun r => (0 <= r)%Q /\ (r < 1)%Q).
Proof.
  intros g Hg. split.
  - exact (Hg (cursor g)).
  - apply unitTape_advance. exact Hg.
Qed.

Lemma Qfloor_scaled_range (r : Q) (n : Z) :
  (0 <= r)%Q -> (r < 1)%Q -> 0 < n ->
  0 <= Qfloor (r * inject_Z n) < n.
Proof.
  intros H0 H1 Hn.
  assert (Hnq : (0 < inject_Z n)%Q).
  { change 0%Q with (inject_Z 0). rewrite <- Zlt_Qlt. exact Hn. }
  split.
  - change 0 with (Qfloor 0). apply Qfloor_resp_le.
    apply Qmult_le_0_compat; [exact H0 | apply Qlt_le_weak; exact Hnq].
  - rewrite Zlt_Qlt.
    apply Qle_lt_trans with (r * inject_Z n)%Q.
    + apply Qfloor_le.
    + setoid_replace (inject_Z n) with (1 * inject_Z n)%Q at 2 by ring.
      apply Qmult_lt_compat_r; assumption.
Qed.

(** [Math.floor(Math.random() * n)] is one of 0, ..., n-1. *)
Lemma returns_randomBelow (n : Z) :
  0 < n -> returns unitTape (randomBelow n) (fun k => 0 <= k < n).
Proof.
  intros Hn. unfold randomBelow.
  eapply returns_bind.
  - apply returns_random_unit.
  - intros r [H0 H1]. apply returns_ret.
    apply Qfloor_scaled_range; assumption.
Qed.

(** ** generateNumber *)

Lemma index_in_range {A} (l : list A) (i : Z) :
  0 <= i < Z.of_nat (List.length l) ->
  exists a, index l i = Some a /\ In a l.
Proof.
  intros Hi. unfold index.
  destruct (Z.ltb_spec i 0) as [Hneg|_]; [lia|].
  destruct (nth_error l (Z.to_nat i)) as [a|] eqn:E.
  - exists a. split; [reflexivity|]. eapply nth_error_In. exact E.
  - apply nth_error_None in E. lia.
Qed.

Lemma enabledTypes_spec (s : GameSettings) (t : DigitType) :
  In t (enabledTypes s) ->
  match t with
  | D1digit => d1digit (digitTypes s) = true \/
               (d1digit (digitTypes s) = false /\
                d2digit (digitTypes s) = false /\
                d3digit (digitTypes s) = false)
  | D2digit => d2digit (digitTypes s) = true
  | D3digit => d3digit (digitTypes s) = true
  end.
Proof.
  unfold enabledTypes.
  destruct (d1digit (digitTypes s)), (d2digit (digitTypes s)),
    (d3digit (digitTypes s)); simpl; intros H;
    repeat (destruct H as [H|H]; [subst t; auto|]); contradiction.
Qed.

Lemma enabledTypes_nonempty (s : GameSettings) :
  0 < Z.of_nat (List.length (enabledTypes s)).
Proof.
  unfold enabledTypes.
  destruct (d1digit (digitTypes s)), (d2digit (digitTypes s)),
    (d3digit (digitTypes s)); simpl; lia.
Qed.

(** Every generated number is in the range of an enabled class. *)
Lemma returns_generateNumber (s : GameSettings) :
  returns unitTape (generateNumber s) (inEnabledClass s).
Proof.
  unfold generateNumber.
  eapply returns_bind.
  - apply returns_randomBelow. apply enabledTypes_nonempty.
  - intros i Hi.
    destruct (index_in_range (enabledTypes s) i Hi) as [t [Et Ht]].
    rewrite Et. apply enabledTypes_spec in Ht.
    destruct t.
    + eapply returns_bind; [apply returns_randomBelow; lia|].
      intros k Hk. cbv beta in Hk. apply returns_ret. unfold inEnabledClass.
      destruct Ht as [Ht|[H1 [H2 H3]]].
      * left. split; [exact Ht | lia].
      * right; right; right. repeat split; try assumption; lia.
    + eapply returns_bind; [apply returns_randomBelow; lia|].
      intros k Hk. cbv beta in Hk. apply returns_ret. unfold inEnabledClass.
      right; left. split; [exact Ht | lia].
    + eapply returns_bind; [apply returns_randomBelow; lia|].
      intros k Hk. cbv beta in Hk. apply returns_ret. unfold inEnabledClass.
      right; right; left. split; [exact Ht | lia].
Qed.

Lemma inEnabledClass_pos (s : GameSettings) (n : Z) :
  inEnabledClass s n -> 1 <= n <= 999.
Proof. unfold inEnabledClass. intros H. intuition lia. Qed.

(** ** The operator choice and the subtraction guard *)

(** The operator is "+" or "-", and "-" only above the candidate. *)
Lemma chooseOp_cases (s : GameSettings) (runningTotal nextNumber : Z) (g : Rng) :
  let op := fst (chooseOp s runningTotal nextNumber g) in
  op = "+"%string \/ (op = "-"%string /\ operations s = both /\ nextNumber < runningTotal).
Proof.
  unfold chooseOp. destruct (operations s); simpl; [left; reflexivity|].
  destruct (Z.gtb_spec runningTotal nextNumber) as [Hgt|Hle]; simpl.
  - destruct ((tape g (cursor g) ?= 1 # 2)%Q).
    + right. repeat split; auto.
    + left. reflexivity.
    + right. repeat split; auto.
  - left. reflexivity.
Qed.

Lemma chooseOp_guard (s : GameSettings) (runningTotal nextNumber : Z) (g : Rng) :
  repairGuard (fst (chooseOp s runningTotal nextNumber g)) runningTotal nextNumber
  = false.
Proof.
  unfold repairGuard.
  destruct (chooseOp_cases s runningTotal nextNumber g) as [E|[E [_ Hlt]]];
    rewrite E; simpl; [reflexivity|].
  apply Z.ltb_ge. lia.
Qed.

Lemma loopBody_unrepaired (s : GameSettings) (l : Locals.t) (g : Rng) :
  loopBody s l g = loopBodyUnrepaired s l g.
Proof.
  unfold loopBody, loopBodyUnrepaired, Rand.bind.
  destruct (generateNumber s g) as [nextNumber g1].
  pose proof (chooseOp_guard s (Locals.runningTotal l) nextNumber g1) as Hguard.
  destruct (chooseOp s (Locals.runningTotal l) nextNumber g1) as [op g2].
  simpl in Hguard. rewrite Hguard. reflexivity.
Qed.

Lemma returns_chooseOp (ok : Rng -> Prop)
      (ok_advance : forall g, ok g -> ok (mkRng (tape g) (S (cursor g))))
      (s : GameSettings) (runningTotal nextNumber : Z) :
  returns ok (chooseOp s runningTotal nextNumber)
    (fun op => op = "+"%string \/
               (op = "-"%string /\ operations s = both /\ nextNumber < runningTotal)).
Proof.
  intros g Hg. split.
  - apply chooseOp_cases.
  - unfold chooseOp. destruct (operations s); simpl; [exact Hg|].
    destruct (runningTotal >? nextNumber); simpl; [|exact Hg].
    apply ok_advance. exact Hg.
Qed.

(** The body of the loop, described without the random source: it appends
    one operand and one operator, the operator "-" only when the operand is
    below the running total. *)
Lemma returns_loopBody (ok : Rng -> Prop)
      (ok_advance : forall g, ok g -> ok (mkRng (tape g) (S (cursor g))))
      (s : GameSettings) (l : Locals.t) (P : Z -> Prop) :
  returns ok (generateNumber s) P ->
  returns ok (loopBody s l)
    (fun l' => exists n op,
       P n /\
       (op = "+"%string \/
        (op = "-"%string /\ operations s = both /\ n < Locals.runningTotal l)) /\
       Locals.numbers l' = Locals.numbers l ++ [n] /\
       Locals.operations l' = Locals.operations l ++ [op] /\
       applyOp op (Locals.runningTotal l) n = Some (Locals.runningTotal l')).
Proof.
  intros Hnum.
  apply returns_ext with (m' := loopBodyUnrepaired s l);
    [apply loopBody_unrepaired|].
  unfold loopBodyUnrepaired.
  eapply returns_bind; [exact Hnum|]. intros n Pn.
  eapply returns_bind; [apply returns_chooseOp; exact ok_advance|].
  intros op Hop. apply returns_ret.
  exists n, op. simpl. repeat split; try assumption.
  destruct Hop as [E|[E _]]; rewrite E; reflexivity.
Qed.

(** ** Left-to-right evaluation *)

Lemma applyOps_more_operands (ops : list string) :
  forall acc rest extra,
    (List.length ops <= List.length rest)%nat ->
    applyOps acc ops (rest ++ extra) = applyOps acc ops rest.
Proof.
  induction ops as [|op ops IH]; intros acc rest extra Hlen; simpl.
  - reflexivity.
  - destruct rest as [|n rest]; simpl in *; [lia|].
    destruct (applyOp op acc n); [|reflexivity].
    apply IH. lia.
Qed.

Lemma applyOps_snoc (ops : list string) :
  forall acc rest v op n,
    List.length rest = List.length ops ->
    applyOps acc ops rest = Some v ->
    applyOps acc (ops ++ [op]) (rest ++ [n]) = applyOp op v n.
Proof.
  induction ops as [|o ops IH]; intros acc rest v op n Hlen Hv; simpl in *.
  - destruct rest; [|discriminate]. simpl. injection Hv as ->.
    destruct (applyOp op v n); reflexivity.
  - destruct rest as [|m rest]; [discriminate|]. simpl in *.
    destruct (applyOp o acc m); [|discriminate].
    apply IH; [lia | exact Hv].
Qed.

Lemma evalLeft_snoc (nums : list Z) (ops : list string) (v : Z) (op : string) (n : Z) :
  List.length nums = S (List.length ops) ->
  evalLeft nums ops = Some v ->
  evalLeft (nums ++ [n]) (ops ++ [op]) = applyOp op v n.
Proof.
  destruct nums as [|n0 rest]; simpl; [discriminate|].
  intros Hlen Hv. apply applyOps_snoc; [lia | exact Hv].
Qed.

Lemma evalPrefix_snoc_old (k : nat) (nums : list Z) (ops : list string)
      (op : string) (n : Z) :
  List.length nums = S (List.length ops) ->
  (k <= List.length ops)%nat ->
  evalPrefix k (nums ++ [n]) (ops ++ [op]) = evalPrefix k nums ops.
Proof.
  intros Hlen Hk. unfold evalPrefix.
  rewrite firstn_app.
  replace (k - List.length ops)%nat with O by lia.
  simpl. rewrite app_nil_r.
  destruct nums as [|n0 rest]; simpl in *; [discriminate|].
  apply applyOps_more_operands.
  rewrite length_firstn. lia.
Qed.

Lemma evalPrefix_all (nums : list Z) (ops : list string) :
  evalPrefix (List.length ops) nums ops = evalLeft nums ops.
Proof. unfold evalPrefix. rewrite firstn_all. reflexivity. Qed.

Lemma sum_snoc (nums : list Z) (n : Z) : sum (nums ++ [n]) = sum nums + n.
Proof.
  unfold sum. induction nums as [|m nums IH]; simpl; [lia|].
  rewrite IH. lia.
Qed.

(** In a question with "+" everywhere the evaluation is the sum. *)
Lemma applyOps_all_plus (ops : list string) :
  forall acc rest,
    Forall (eq "+"%string) ops ->
    List.length rest = List.length ops ->
    applyOps acc ops rest = Some (acc + sum rest).
Proof.
  induction ops as [|op ops IH]; intros acc rest Hall Hlen.
  - destruct rest; [|discriminate]. simpl. f_equal. unfold sum. simpl. lia.
  - destruct rest as [|n rest]; [discriminate|].
    inversion Hall as [|? ? Hop Hall']; subst. simpl.
    rewrite IH; [|assumption|simpl in Hlen; lia].
    f_equal. unfold sum. simpl. lia.
Qed.

(** ** Loop invariants of generateQuestion *)

Lemma returns_anything {A} (m : Rand.t A) : returns anyTape m (fun _ => True).
Proof. intros g _. split; exact I. Qed.

Lemma shapeInv_step (s : GameSettings) (total n : nat) (l : Locals.t) :
  shapeInv s total (S n) l ->
  returns anyTape (loopBody s l) (shapeInv s total n).
Proof.
  intros (Hlen & Hcount & Heval & Hadd).
  eapply returns_weaken.
  - apply (returns_loopBody anyTape anyTape_advance s l (fun _ => True)).
    apply returns_anything.
  - intros l' (m & op & _ & Hop & En & Eo & Ert).
    unfold shapeInv. rewrite En, Eo, !length_app. simpl.
    repeat split.
    + lia.
    + lia.
    + rewrite <- Ert. apply evalLeft_snoc; assumption.
    + destruct (Hadd H) as [Hall _]. apply Forall_app. split; [exact Hall|].
      destruct Hop as [E|(_ & Hboth & _)]; [|congruence].
      constructor; [symmetry; exact E | constructor].
    + destruct (Hadd H) as [_ Hsum].
      destruct Hop as [E|(_ & Hboth & _)]; [|congruence].
      rewrite E in Ert. simpl in Ert. injection Ert as <-.
      rewrite sum_snoc. lia.
Qed.

Lemma rangeInv_total_pos (s : GameSettings) (l : Locals.t) :
  rangeInv s l -> 1 <= Locals.runningTotal l.
Proof.
  intros (_ & Heval & Hpre & _).
  destruct (Hpre (List.length (Locals.operations l)) (Nat.le_refl _)) as (v & Ev & Hv).
  rewrite evalPrefix_all, Heval in Ev. injection Ev as <-. exact Hv.
Qed.

Lemma rangeInv_step (s : GameSettings) (l : Locals.t) :
  rangeInv s l ->
  returns unitTape (loopBody s l) (rangeInv s).
Proof.
  intros Hinv. pose proof (rangeInv_total_pos s l Hinv) as Hrt.
  destruct Hinv as (Hlen & Heval & Hpre & Hcls).
  eapply returns_weaken.
  - apply (returns_loopBody unitTape unitTape_advance s l (inEnabledClass s)).
    apply returns_generateNumber.
  - intros l' (m & op & Hm & Hop & En & Eo & Ert).
    pose proof (inEnabledClass_pos s m Hm) as Hmpos.
    assert (Hnew : evalLeft (Locals.numbers l') (Locals.operations l') = Some (Locals.runningTotal l')).
    { rewrite En, Eo, <- Ert. apply evalLeft_snoc; assumption. }
    unfold rangeInv. repeat split.
    + rewrite En, Eo, !length_app. simpl. lia.
    + exact Hnew.
    + intros k Hk.
      destruct (Nat.le_gt_cases k (List.length (Locals.operations l))) as [Hold|Hlast].
      * rewrite En, Eo, evalPrefix_snoc_old by assumption. apply Hpre. exact Hold.
      * assert (k = List.length (Locals.operations l')) as ->.
        { rewrite Eo, length_app in *. simpl in *. lia. }
        rewrite evalPrefix_all, Hnew. eexists. split; [reflexivity|].
        destruct Hop as [E|(E & _ & Hlt)]; rewrite E in Ert; simpl in Ert;
          injection Ert as <-; lia.
    + rewrite En. apply Forall_app. split; [exact Hcls|].
      constructor; [exact Hm | constructor].
Qed.

Lemma evalPrefix_beyond (k : nat) (nums : list Z) (ops : list string) :
  (List.length ops <= k)%nat -> evalPrefix k nums ops = evalLeft nums ops.
Proof. intros Hk. unfold evalPrefix. rewrite firstn_all2 by exact Hk. reflexivity. Qed.

(** What generateQuestion returns on any random source. *)
Lemma returns_generateQuestion_shape (s : GameSettings) :
  returns anyTape (generateQuestion s)
    (fun q =>
       List.length (Question.numbers q) = S (iterations s) /\
       List.length (Question.operations q) = iterations s /\
       evalLeft (Question.numbers q) (Question.operations q) = Some (Question.answer q) /\
       (operations s = addition ->
        Forall (eq "+"%string) (Question.operations q) /\ Question.answer q = sum (Question.numbers q))).
Proof.
  unfold generateQuestion.
  eapply returns_bind; [apply returns_anything|]. intros n0 _.
  eapply returns_bind.
  - apply (returns_loop anyTape s (shapeInv s (iterations s))).
    + intros n l. apply shapeInv_step.
    + unfold shapeInv. simpl. split; [reflexivity|]. split; [reflexivity|].
      split; [reflexivity|]. intros _. split; [constructor|].
      unfold sum. simpl. lia.
  - intros l (Hlen & Hcount & Heval & Hadd). apply returns_ret. simpl.
    repeat split; try assumption; try lia; apply Hadd; assumption.
Qed.

(** What generateQuestion returns when the draws lie in [0,1). *)
Lemma returns_generateQuestion_range (s : GameSettings) :
  returns unitTape (generateQuestion s)
    (fun q =>
       (forall k, exists v,
            evalPrefix k (Question.numbers q) (Question.operations q) = Some v /\ 1 <= v) /\
       1 <= Question.answer q /\
       Forall (inEnabledClass s) (Question.numbers q)).
Proof.
  unfold generateQuestion.
  eapply returns_bind; [apply returns_generateNumber|]. intros n0 Hn0.
  pose proof (inEnabledClass_pos s n0 Hn0) as Hpos.
  eapply returns_bind.
  - apply (returns_loop unitTape s (fun _ => rangeInv s)).
    + intros _ l. apply rangeInv_step.
    + unfold rangeInv. simpl. repeat split.
      * intros k Hk. exists n0. split; [|lia].
        unfold evalPrefix. rewrite firstn_nil. reflexivity.
      * constructor; [exact Hn0 | constructor].
  - intros l Hinv. pose proof (rangeInv_total_pos s l Hinv) as Hrt.
    destruct Hinv as (Hlen & Heval & Hpre & Hcls).
    apply returns_ret. simpl. repeat split; try assumption.
    intros k.
    destruct (Nat.le_gt_cases k (List.length (Locals.operations l))) as [Hk|Hk].
    + apply Hpre. exact Hk.
    + rewrite evalPrefix_beyond by lia. exists (Locals.runningTotal l). split; assumption.
Qed.

Lemma questionsLoop_length (s : GameSettings) (iters : nat) :
  forall questions g,
    List.length (fst (questionsLoop s iters questions g))
    = (List.length questions + iters)%nat.
Proof.
  induction iters as [|iters IH]; intros qs g; simpl.
  - lia.
  - unfold Rand.bind. destruct (generateQuestion s g) as [q g'].
    rewrite IH, length_app. simpl. lia.
Qed.

(** ** The level is not read by the generator *)

Lemma generateNumber_level (s1 s2 : GameSettings) (g : Rng) :
  digitTypes s1 = digitTypes s2 ->
  generateNumber s1 g = generateNumber s2 g.
Proof.
  intros Hd. unfold generateNumber, enabledTypes. rewrite Hd. reflexivity.
Qed.

Lemma loopBody_level (s1 s2 : GameSettings) (l : Locals.t) (g : Rng) :
  sameExceptLevel s1 s2 -> loopBody s1 l g = loopBody s2 l g.
Proof.
  intros (Hd & Ho & _). unfold loopBody, Rand.bind.
  rewrite (generateNumber_level s1 s2 g Hd).
  destruct (generateNumber s2 g) as [nextNumber g1].
  unfold chooseOp. rewrite Ho. reflexivity.
Qed.

Lemma loop_level (s1 s2 : GameSettings) (iters : nat) :
  sameExceptLevel s1 s2 ->
  forall l g, loop s1 iters l g = loop s2 iters l g.
Proof.
  intros Hs. induction iters as [|iters IH]; intros l g; simpl; [reflexivity|].
  unfold Rand.bind. rewrite (loopBody_level s1 s2 l g Hs).
  destruct (loopBody s2 l g) as [l' g']. apply IH.
Qed.

Lemma generateQuestion_level (s1 s2 : GameSettings) (g : Rng) :
  sameExceptLevel s1 s2 -> generateQuestion s1 g = generateQuestion s2 g.
Proof.
  intros Hs. pose proof Hs as (Hd & _ & _ & Hn & _).
  unfold generateQuestion, iterations, Rand.bind.
  rewrite (generateNumber_level s1 s2 g Hd), Hn.
  destruct (generateNumber s2 g) as [n0 g1].
  rewrite (loop_level s1 s2 _ Hs). reflexivity.
Qed.

Lemma questionsLoop_level (s1 s2 : GameSettings) (iters : nat) :
  sameExceptLevel s1 s2 ->
  forall questions g,
    questionsLoop s1 iters questions g = questionsLoop s2 iters questions g.
Proof.
  intros Hs. induction iters as [|iters IH]; intros qs g; simpl; [reflexivity|].
  unfold Rand.bind. rewrite (generateQuestion_level s1 s2 g Hs).
  destruct (generateQuestion s2 g) as [q g']. apply IH.
Qed.

Lemma unitTape_sevenths : unitTape sevenths.
Proof.
  intros n. unfold sevenths, tape.
  pose proof (Nat.mod_upper_bound n 7 ltac:(discriminate)) as Hlt.
  generalize dependent (n mod 7)%nat. intros m Hlt.
  unfold Qdiv, Qle, Qlt, Qmult, Qinv, inject_Z. simpl. lia.
Qed.

(** * The generator *)

(** C1: every prefix evaluation of a generated question, the final one
    included, is defined and non-negative, and so is the stored answer. *)
Theorem generateQuestion_prefixes_nonnegative (s : GameSettings) (g : Rng) :
  unitTape g ->
  let q := fst (generateQuestion s g) in
  (forall k, exists v,
       evalPrefix k (Question.numbers q) (Question.operations q) = Some v /\ 0 <= v) /\
  0 <= Question.answer q.
Proof.
  intros Hg q.
  destruct (returns_generateQuestion_range s g Hg) as [(Hpre & Hans & _) _].
  fold q in Hpre, Hans. split; [|lia].
  intros k. destruct (Hpre k) as (v & Ev & Hv). exists v. split; [exact Ev | lia].
Qed.

Lemma generateQuestion_prefixes_nonnegative_witness :
  unitTape sevenths /\
  let q := fst (generateQuestion defaultSettings sevenths) in
  (forall k, exists v,
       evalPrefix k (Question.numbers q) (Question.operations q) = Some v /\ 0 <= v) /\
  0 <= Question.answer q.
Proof.
  split; [exact unitTape_sevenths|].
  apply (generateQuestion_prefixes_nonnegative defaultSettings sevenths).
  exact unitTape_sevenths.
Defined.

(** C2: the stored answer is the left-to-right evaluation of the numbers
    under the operations; in addition-only mode it is the sum of the
    numbers. *)
Theorem generateQuestion_answer_is_evaluation (s : GameSettings) (g : Rng) :
  let q := fst (generateQuestion s g) in
  evalLeft (Question.numbers q) (Question.operations q) = Some (Question.answer q) /\
  (operations s = addition -> Question.answer q = sum (Question.numbers q)).
Proof.
  intros q.
  destruct (returns_generateQuestion_shape s g I) as [(_ & _ & Heval & Hadd) _].
  fold q in Heval, Hadd. split; [exact Heval|].
  intros Hmode. apply Hadd. exact Hmode.
Qed.

Lemma generateQuestion_answer_is_evaluation_witness :
  let s := mkSettings (mkDigitTypes true false false) addition 1 3 1 default in
  let q := fst (generateQuestion s sevenths) in
  operations s = addition /\
  evalLeft (Question.numbers q) (Question.operations q) = Some (Question.answer q) /\
  Question.answer q = sum (Question.numbers q).
Proof.
  intros s q. split; [reflexivity|].
  destruct (generateQuestion_answer_is_evaluation s sevenths) as [He Hs].
  split; [exact He | apply Hs; reflexivity].
Defined.

(** C3: every operand lies in the range of an enabled digit-size class;
    with no class enabled the 1-digit class stands in and every operand
    lies in 1..9. *)
Theorem generateQuestion_operands_in_enabled_class (s : GameSettings) (g : Rng) :
  unitTape g ->
  inEnabledClass s (fst (generateNumber s g)) /\
  Forall (inEnabledClass s) (Question.numbers (fst (generateQuestion s g))) /\
  (d1digit (digitTypes s) = false ->
   d2digit (digitTypes s) = false ->
   d3digit (digitTypes s) = false ->
   1 <= fst (generateNumber s g) <= 9 /\
   Forall (fun n => 1 <= n <= 9) (Question.numbers (fst (generateQuestion s g)))).
Proof.
  intros Hg.
  destruct (returns_generateNumber s g Hg) as [Hnum _].
  destruct (returns_generateQuestion_range s g Hg) as [(_ & _ & Hall) _].
  split; [exact Hnum|]. split; [exact Hall|].
  intros H1 H2 H3.
  assert (Hnone : forall n, inEnabledClass s n -> 1 <= n <= 9).
  { unfold inEnabledClass. intros n H. intuition congruence. }
  split; [apply Hnone; exact Hnum|].
  eapply Forall_impl; [|exact Hall]. exact Hnone.
Qed.

Lemma generateQuestion_operands_in_enabled_class_witness :
  unitTape sevenths /\
  d1digit (digitTypes noDigitSettings) = false /\
  d2digit (digitTypes noDigitSettings) = false /\
  d3digit (digitTypes noDigitSettings) = false /\
  Forall (fun n => 1 <= n <= 9)
         (Question.numbers (fst (generateQuestion noDigitSettings sevenths))).
Proof.
  split; [exact unitTape_sevenths|]. repeat (split; [reflexivity|]).
  apply (generateQuestion_operands_in_enabled_class noDigitSettings sevenths
           unitTape_sevenths); reflexivity.
Defined.

(** C4: in addition-only mode every operator of every question of the
    batch is "+". *)
Theorem addition_mode_only_plus (s : GameSettings) (g : Rng) :
  operations s = addition ->
  Forall (eq "+"%string) (Question.operations (fst (generateQuestion s g))) /\
  Forall (fun q => Forall (eq "+"%string) (Question.operations q))
         (fst (generateQuestions s g)).
Proof.
  intros Hmode.
  assert (Hq : returns anyTape (generateQuestion s)
                 (fun q => Forall (eq "+"%string) (Question.operations q))).
  { eapply returns_weaken; [apply returns_generateQuestion_shape|].
    intros q (_ & _ & _ & Hadd). apply Hadd. exact Hmode. }
  split.
  - apply (Hq g I).
  - unfold generateQuestions.
    apply (returns_questionsLoop anyTape s _ Hq _ [] (Forall_nil _) g I).
Qed.

Lemma addition_mode_only_plus_witness :
  let s := mkSettings (mkDigitTypes true true true) addition 3 4 2 ocean in
  operations s = addition /\
  Forall (fun q => Forall (eq "+"%string) (Question.operations q))
         (fst (generateQuestions s sevenths)).
Proof.
  intros s. split; [reflexivity|].
  apply (addition_mode_only_plus s sevenths). reflexivity.
Defined.

(** C5: a batch for [numQuestions = P] has P questions, and for
    [numbersPerQuestion = N >= 2] each has N numbers and N-1 operations. *)
Theorem batch_and_question_sizes (s : GameSettings) (g : Rng) :
  0 <= numQuestions s ->
  2 <= numbersPerQuestion s ->
  Z.of_nat (List.length (fst (generateQuestions s g))) = numQuestions s /\
  Forall (fun q =>
            Z.of_nat (List.length (Question.numbers q)) = numbersPerQuestion s /\
            Z.of_nat (List.length (Question.operations q)) = numbersPerQuestion s - 1)
         (fst (generateQuestions s g)).
Proof.
  intros HP HN. unfold generateQuestions. split.
  - rewrite questionsLoop_length. simpl. lia.
  - apply (returns_questionsLoop anyTape s); [| constructor | exact I].
    eapply returns_weaken; [apply returns_generateQuestion_shape|].
    intros q (Hn & Ho & _). cbv beta. unfold iterations in *. lia.
Qed.

Lemma batch_and_question_sizes_witness :
  0 <= numQuestions defaultSettings /\
  2 <= numbersPerQuestion defaultSettings /\
  Z.of_nat (List.length (fst (generateQuestions defaultSettings sevenths))) = 10.
Proof.
  split; [simpl; lia|]. split; [simpl; lia|].
  apply (batch_and_question_sizes defaultSettings sevenths); simpl; lia.
Defined.

(** C9: two settings that differ only in the level give, on the same
    random source, the same numbers, questions and batches, and leave the
    source in the same place. *)
Theorem level_does_not_affect_generation (s1 s2 : GameSettings) (g : Rng) :
  sameExceptLevel s1 s2 ->
  generateNumber s1 g = generateNumber s2 g /\
  generateQuestion s1 g = generateQuestion s2 g /\
  generateQuestions s1 g = generateQuestions s2 g.
Proof.
  intros Hs. pose proof Hs as (Hd & _ & Hq & _).
  split; [apply generateNumber_level; exact Hd|].
  split; [apply generateQuestion_level; exact Hs|].
  unfold generateQuestions. rewrite Hq. apply questionsLoop_level. exact Hs.
Qed.

Lemma level_does_not_affect_generation_witness :
  let s1 := mkSettings (mkDigitTypes true true false) both 2 3 1 default in
  let s5 := mkSettings (mkDigitTypes true true false) both 2 3 5 default in
  sameExceptLevel s1 s5 /\
  generateQuestions s1 sevenths = generateQuestions s5 sevenths.
Proof.
  intros s1 s5.
  assert (Hs : sameExceptLevel s1 s5) by (repeat split).
  split; [exact Hs|].
  apply (level_does_not_affect_generation s1 s5 sevenths Hs).
Defined.

(** C10: the operator first chosen is "-" only above the candidate, so the
    subtraction guard is false on every path and the loop body is the body
    without the repair: the candidate is never redrawn and the operator
    never changed. *)
Theorem repair_branch_unreachable
        (s : GameSettings) (runningTotal nextNumber : Z) (l : Locals.t) (g : Rng) :
  let op := fst (chooseOp s runningTotal nextNumber g) in
  (op = "+"%string \/ (op = "-"%string /\ runningTotal > nextNumber)) /\
  repairGuard op runningTotal nextNumber = false /\
  loopBody s l g = loopBodyUnrepaired s l g.
Proof.
  intros op. split; [|split].
  - destruct (chooseOp_cases s runningTotal nextNumber g) as [E|(E & _ & Hlt)].
    + left. exact E.
    + right. split; [exact E | lia].
  - apply chooseOp_guard.
  - apply loopBody_unrepaired.
Qed.

(** * The sequencer *)

(** ** What commit and the handlers do to the timers *)

Lemma st_commit (before : Component) (w : World) : st (commit before w) = st w.
Proof. unfold commit. destruct (Deps_eq_dec _ _); reflexivity. Qed.

Lemma timeouts_commit (before : Component) (w : World) :
  timeouts (commit before w) = timeouts w.
Proof. unfold commit. destruct (Deps_eq_dec _ _); reflexivity. Qed.

Lemma rng_commit (before : Component) (w : World) : rng (commit before w) = rng w.
Proof. unfold commit. destruct (Deps_eq_dec _ _); reflexivity. Qed.

Lemma commit_same (w : World) : commit (st w) w = w.
Proof. unfold commit. destruct (Deps_eq_dec _ _) as [_|H]; [reflexivity|]. now destruct H. Qed.

(** When the game state changed, the effect ran again. *)
Lemma commit_gameState_changed (before : Component) (w : World) :
  gameState before <> gameState (st w) ->
  commit before w = mkWorld (st w) (gameLogic (st w)) (timeouts w) (rng w) (outputs w).
Proof.
  intros Hne. unfold commit. destruct (Deps_eq_dec _ _) as [E|_]; [|reflexivity].
  exfalso. apply Hne. unfold deps in E. congruence.
Qed.

(** The effect arms a timer only while playing, unpaused and past Get
    Ready. *)
Lemma gameLogic_armed (c : Component) :
  gameLogic c <> None ->
  gameState c = playing /\ showingGetReady c = false /\ isPaused c = false.
Proof.
  unfold gameLogic.
  destruct (gameState c), (isPaused c), (showingGetReady c); simpl;
    intros H; try (now destruct H); repeat split.
Qed.

Lemma gameLogic_not_playing (c : Component) :
  gameState c <> playing -> gameLogic c = None.
Proof.
  intros Hne. destruct (gameLogic c) eqn:E; [|reflexivity].
  destruct (gameLogic_armed c) as (Hplay & _); [congruence|].
  now destruct Hne.
Qed.

Lemma effectTimer_commit (before : Component) (w : World) :
  effectTimer (commit before w) <> None ->
  (effectTimer w <> None /\ deps before = deps (st w)) \/
  gameLogic (st w) <> None.
Proof.
  unfold commit. destruct (Deps_eq_dec _ _) as [E|_]; simpl; auto.
Qed.

Lemma deps_flags (a b : Component) :
  deps a = deps b ->
  gameState a = gameState b /\ showingGetReady a = showingGetReady b /\
  isPaused a = isPaused b.
Proof. unfold deps. intros E. repeat split; congruence. Qed.

(** startGame either only alerts or starts a game with one get-ready
    timeout. *)
Lemma startGame_cases (w : World) :
  (exists message, startGame w = alert message w) \/
  (gameState (st (startGame w)) = playing /\
   showingGetReady (st (startGame w)) = true /\
   isPaused (st (startGame w)) = false /\
   effectTimer (startGame w) = effectTimer w /\
   exists t, timeouts (startGame w) = timeouts w ++ [t]).
Proof.
  unfold startGame.
  destruct (negb _); [left; eexists; reflexivity|].
  destruct (_ <? 2); [left; eexists; reflexivity|].
  destruct (_ <? 1); [left; eexists; reflexivity|].
  right. unfold generateInto. simpl.
  destruct (generateQuestions _ _) as [questions g']. simpl.
  repeat split. eexists. reflexivity.
Qed.

(** A game that starts holds the batch generated from its settings, and
    has advanced the random source past it. *)
Lemma startGame_batch (w : World) :
  gameState (st w) = setup ->
  gameState (st (startGame w)) = playing ->
  allQuestions (st (startGame w))
  = fst (generateQuestions (settings (st w)) (rng w)) /\
  rng (startGame w) = snd (generateQuestions (settings (st w)) (rng w)).
Proof.
  unfold startGame.
  destruct (negb _); [simpl; congruence|].
  destruct (_ <? 2); [simpl; congruence|].
  destruct (_ <? 1); [simpl; congruence|].
  intros _ _. unfold generateInto. simpl.
  destruct (generateQuestions _ _) as [questions g']. split; reflexivity.
Qed.

Lemma showQuestion_frame (q : Question.t) (w : World) :
  gameState (st (showQuestion q w)) = gameState (st w) /\
  showingGetReady (st (showQuestion q w)) = showingGetReady (st w) /\
  isPaused (st (showQuestion q w)) = isPaused (st w) /\
  effectTimer (showQuestion q w) = effectTimer w /\
  timeouts (showQuestion q w) = timeouts w.
Proof.
  unfold showQuestion. destruct (index _ 0); simpl; repeat split.
Qed.

(** A get-ready callback ends Get Ready and touches no timer. *)
Lemma runLoose_frame (cb : LooseCallback) (w : World) :
  gameState (st (runLoose cb w)) = gameState (st w) /\
  showingGetReady (st (runLoose cb w)) = false /\
  isPaused (st (runLoose cb w)) = isPaused (st w) /\
  effectTimer (runLoose cb w) = effectTimer w /\
  timeouts (runLoose cb w) = timeouts w.
Proof.
  destruct cb as [questions|cq qs]; unfold runLoose.
  - destruct (0 <? _); [|simpl; repeat split].
    destruct (index questions 0) as [q|]; [|simpl; repeat split].
    destruct (showQuestion_frame q
                (update (setShowingGetReady false) (playSound getReady w)))
      as (-> & -> & -> & -> & ->).
    simpl. repeat split.
  - destruct (index qs (cq + 1)) as [q|]; [|simpl; repeat split].
    match goal with
    | |- context [showQuestion q ?w'] =>
        destruct (showQuestion_frame q w') as (-> & -> & -> & -> & ->)
    end.
    simpl. repeat split.
Qed.

(** An effect callback either opens Get Ready with one new timeout, or
    leaves Get Ready and the timeouts alone. *)
Lemma runEffectCallback_cases (cb : EffectCallback) (w : World) :
  let w' := runEffectCallback cb w in
  effectTimer w' = effectTimer w /\
  isPaused (st w') = isPaused (st w) /\
  ((gameState (st w') = gameState (st w) /\
    showingGetReady (st w') = true /\
    exists t, timeouts w' = timeouts w ++ [t]) \/
   ((gameState (st w') = gameState (st w) \/ gameState (st w') = results) /\
    showingGetReady (st w') = showingGetReady (st w) /\
    timeouts w' = timeouts w)).
Proof.
  destruct cb as [cq qs|a|i ns|i ns]; simpl.
  - destruct (cq <? _); simpl.
    + repeat split. left. repeat split. eexists. reflexivity.
    + repeat split. right. repeat split. right. reflexivity.
  - repeat split. right. repeat split. left. reflexivity.
  - destruct (i <? _); simpl.
    + destruct (index ns (i + 1)); simpl; repeat split;
        right; repeat split; left; reflexivity.
    + repeat split. right. repeat split. left. reflexivity.
  - destruct (i <? _); simpl; repeat split;
      right; repeat split; left; reflexivity.
Qed.

(** ** The invariant of reachable worlds *)

(** What a handler or callback establishes before React commits. *)
Lemma handle_inv (e : Event) (w : World) :
  worldInv w -> enabled w e = true ->
  let h := handle e w in
  (timeouts h = [] \/
   (exists t, timeouts h = [t]) /\
   gameState (st h) = playing /\ showingGetReady (st h) = true) /\
  (effectTimer h <> None -> effectTimer w <> None) /\
  (isPaused (st h) = true <-> gameState (st h) = paused).
Proof.
  intros (HT & HE & HP) Hen.
  assert (Hidle : gameState (st w) <> playing \/ showingGetReady (st w) = false ->
                  timeouts w = []).
  { intros Hidle. destruct HT as [E|(_ & Hplay & Hready)]; [exact E|].
    destruct Hidle as [Hn|Hf]; [now destruct Hn | congruence]. }
  destruct e; simpl in Hen; simpl.
  - (* ClickStart *)
    destruct (gameState (st w)) eqn:Egs; try discriminate.
    assert (Et : timeouts w = []) by (apply Hidle; left; discriminate).
    destruct (startGame_cases (playSound buttonClick w))
      as [[message ->]|(Hgs & Hready & Hpaused & Heff & t & Htime)].
    + simpl. rewrite Egs. repeat split; auto.
      * intros Hp. apply HP in Hp. congruence.
      * discriminate.
    + rewrite Hgs, Hready, Hpaused, Heff, Htime. simpl. rewrite Et. simpl.
      repeat split; try discriminate; auto.
      right. repeat split. eexists. reflexivity.
  - (* ClickPause *)
    destruct (gameState (st w)) eqn:Egs; try discriminate.
    apply negb_true_iff in Hen.
    rewrite Hidle by (right; exact Hen).
    repeat split; auto.
  - (* ClickResume *)
    destruct (gameState (st w)) eqn:Egs; try discriminate.
    rewrite Hidle by (left; discriminate).
    repeat split; auto; discriminate.
  - (* ClickRestart *)
    assert (Et : timeouts w = []).
    { apply Hidle. destruct (gameState (st w)); try discriminate.
      - right. apply negb_true_iff. exact Hen.
      - left. discriminate.
      - left. discriminate. }
    rewrite Et. repeat split; auto; discriminate.
  - (* ChangeSettings *)
    destruct (gameState (st w)) eqn:Egs; try discriminate.
    rewrite Hidle by (left; discriminate).
    repeat split; auto.
    + intros Hp. apply HP in Hp. congruence.
    + discriminate.
  - (* EffectTimerFires *)
    destruct (effectTimer w) as [t|] eqn:Eeff; [|discriminate].
    destruct HE as [Hplay Hready]; [discriminate|].
    assert (Et : timeouts w = []) by (apply Hidle; right; exact Hready).
    assert (Hnp : isPaused (st w) <> true).
    { intros Hp. apply HP in Hp. congruence. }
    match goal with
    | |- context [runEffectCallback ?cb ?w0] =>
        destruct (runEffectCallback_cases cb w0)
          as (Heff & Hpaused & [(Hgs & Hr & t' & Htime)|(Hgs & Hr & Htime)])
    end; simpl in Heff, Hpaused, Hgs, Hr, Htime.
    + rewrite Heff, Hpaused, Hgs, Hr, Htime, Et, Hplay. simpl.
      repeat split; try congruence.
      right. repeat split. eexists. reflexivity.
    + rewrite Heff, Hpaused, Htime, Et.
      repeat split; auto; try congruence.
      intros Hg. destruct Hgs as [Hgs|Hgs]; congruence.
  - (* TimeoutFires *)
    apply Nat.ltb_lt in Hen.
    destruct HT as [Et|((t & Et) & Hplay & Hready)];
      [rewrite Et in Hen; simpl in Hen; lia|].
    rewrite Et in *. simpl in Hen.
    assert (i = O) as -> by lia. simpl.
    match goal with
    | |- context [runLoose ?cb ?w0] =>
        destruct (runLoose_frame cb w0) as (Hgs & Hr & Hpaused & Heff & Htime)
    end; simpl in Hgs, Hpaused, Heff, Htime.
    rewrite Hgs, Hpaused, Heff, Htime.
    repeat split; auto; apply HP.
Qed.

Lemma step_inv (e : Event) (w : World) :
  worldInv w -> enabled w e = true -> worldInv (step e w).
Proof.
  intros Hinv Hen.
  destruct (handle_inv e w Hinv Hen) as (HT & HE & HP).
  destruct Hinv as (_ & HEw & _).
  unfold step, worldInv. rewrite st_commit, timeouts_commit.
  split; [exact HT|]. split; [|exact HP].
  intros Harmed. apply effectTimer_commit in Harmed.
  destruct Harmed as [(Hh & Hdeps)|Hlogic].
  - destruct (HEw (HE Hh)) as [Hplay Hready].
    apply deps_flags in Hdeps. destruct Hdeps as (Hg & Hr & _).
    split; congruence.
  - apply gameLogic_armed in Hlogic. destruct Hlogic as (Hplay & Hready & _).
    split; assumption.
Qed.

Lemma reachable_inv (w : World) : reachable w -> worldInv w.
Proof.
  induction 1 as [s g|w e _ IH Hen].
  - unfold worldInv. simpl. split; [left; reflexivity|]. split.
    + intros Harmed. now destruct Harmed.
    + split; discriminate.
  - apply step_inv; assumption.
Qed.

(** ** Worlds used in the examples *)

Lemma reachable_started :
  reachable (step ClickStart (initialWorld smallSettings sevenths)).
Proof. apply reachable_step; [apply reachable_initial | vm_compute; reflexivity]. Qed.

Lemma reachable_first_number :
  reachable (step (TimeoutFires 0) (step ClickStart (initialWorld smallSettings sevenths))).
Proof. apply reachable_step; [exact reachable_started | vm_compute; reflexivity]. Qed.

Lemma first_number_offers_pause_and_restart :
  let w := step (TimeoutFires 0) (step ClickStart (initialWorld smallSettings sevenths)) in
  enabled w ClickPause = true /\ enabled w ClickRestart = true.
Proof. cbv zeta. split; vm_compute; reflexivity. Qed.

(** ** Restart *)

(** C6: Restart is safe in every phase in which it can be invoked.  The
    only caller of [restartGame] is the Restart button, which the screen
    shows while playing past Get Ready, while paused and on the results
    screen.  From every reachable world where it is clicked, Restart
    leaves no timer pending: the effect's timer is cleared by the cleanup
    of the effect, and the get-ready timeouts of [startGame] and of the
    between-questions transition have fired before the button is shown.
    So no timer event can occur afterwards, and firing any would leave the
    reset state as Restart wrote it. *)
Theorem restart_leaves_no_pending_timer (w : World) :
  reachable w ->
  enabled w ClickRestart = true ->
  let w' := step ClickRestart w in
  effectTimer w' = None /\
  timeouts w' = [] /\
  gameState (st w') = setup /\
  (forall e, isTimerEvent e = true -> enabled w' e = false /\ step e w' = w').
Proof.
  intros Hreach Hen.
  destruct (reachable_inv w Hreach) as (HT & _ & _).
  simpl in Hen.
  assert (Hnotsetup : gameState (st w) <> setup).
  { intros E. rewrite E in Hen. discriminate. }
  assert (Et : timeouts w = []).
  { destruct HT as [Et|(_ & Hplay & Hready)]; [exact Et|].
    rewrite Hplay, Hready in Hen. discriminate. }
  assert (Hgs : gameState (st (restartGame w)) = setup) by reflexivity.
  assert (Ew : step ClickRestart w
               = mkWorld (st (restartGame w)) None [] (rng w)
                         (outputs w ++ [Sound buttonClick])).
  { unfold step. rewrite commit_gameState_changed by exact Hnotsetup.
    rewrite gameLogic_not_playing by (simpl; discriminate).
    simpl. rewrite Et. reflexivity. }
  cbv zeta. rewrite Ew.
  set (c := st (restartGame w)) in *. clearbody c.
  set (w' := mkWorld c None [] (rng w) (outputs w ++ [Sound buttonClick])).
  split; [reflexivity|]. split; [reflexivity|]. split; [exact Hgs|].
  intros e He. destruct e; try discriminate.
  - split; [reflexivity|]. exact (commit_same w').
  - split; [destruct i; reflexivity|].
    assert (Eh : handle (TimeoutFires i) w' = w') by (destruct i; reflexivity).
    unfold step. rewrite Eh. exact (commit_same w').
Qed.

Lemma restart_leaves_no_pending_timer_witness :
  let w := step (TimeoutFires 0) (step ClickStart (initialWorld smallSettings sevenths)) in
  reachable w /\
  enabled w ClickRestart = true /\
  effectTimer w <> None /\
  effectTimer (step ClickRestart w) = None /\
  timeouts (step ClickRestart w) = [].
Proof.
  intros w.
  destruct first_number_offers_pause_and_restart as [_ Hoffered].
  split; [exact reachable_first_number|].
  split; [exact Hoffered|].
  split; [vm_compute; discriminate|].
  destruct (restart_leaves_no_pending_timer w reachable_first_number Hoffered)
    as (He & Ht & _).
  split; assumption.
Defined.

(** [restartGame] itself keeps no handle on the get-ready timeouts: the
    theorem above rests on the screen, which shows no Restart button during
    Get Ready.  Were the handler run there, in a world where [ClickRestart]
    is not enabled, the timeout of [startGame] would still fire and write
    the first question into the reset state.  The world this produces is
    not reachable. *)
Example restart_during_get_ready_timeout_still_fires :
  let w1 := step ClickStart (initialWorld smallSettings sevenths) in
  let w2 := step ClickRestart w1 in
  let w3 := step (TimeoutFires 0) w2 in
  (showingGetReady (st w1) = true /\ enabled w1 ClickRestart = false /\
   ~ reachable w2) /\
  enabled w2 (TimeoutFires 0) = true /\
  (gameState (st w2) = setup /\ currentNumbers (st w2) = [] /\
   displayNumber (st w2) = ""%string /\ answer (st w2) = 0) /\
  (currentNumbers (st w3) = [2; 4; 74] /\
   displayNumber (st w3) = "2"%string /\ answer (st w3) = 80) /\
  st w3 <> st w2.
Proof.
  cbv zeta. repeat split; try (vm_compute; reflexivity).
  - intros Hreach. apply reachable_inv in Hreach.
    destruct Hreach as ([Ht|(_ & Hplay & _)] & _).
    + vm_compute in Ht. discriminate.
    + vm_compute in Hplay. discriminate.
  - intros E. apply (f_equal answer) in E. vm_compute in E. discriminate.
Qed.

(** The same with the timeout of the between-questions transition, again
    from a world where [ClickRestart] is not enabled: fired after the
    handler it would move the cursor of the reset game to question 1 and
    show the second question of the discarded batch, which its closure
    still holds. *)
Example restart_between_questions_timeout_still_fires :
  let w := fold_left (fun w e => step e w)
             [ClickStart; TimeoutFires 0; EffectTimerFires; EffectTimerFires;
              EffectTimerFires; EffectTimerFires; EffectTimerFires;
              EffectTimerFires; EffectTimerFires]
             (initialWorld smallSettings sevenths) in
  let w' := step (TimeoutFires 0) (step ClickRestart w) in
  (showingGetReady (st w) = true /\ enabled w ClickRestart = false) /\
  currentQuestion (st (step ClickRestart w)) = 0 /\
  currentQuestion (st w') = 1 /\
  currentNumbers (st w') = [10; 3; 74] /\
  outputs w' = outputs w ++ [Sound buttonClick; Sound getReady].
Proof. cbv zeta. repeat split; vm_compute; reflexivity. Qed.

(** ** Starting with no digit-size class *)

(** C7, as stated, fails: with no class enabled, Start shows the alert and
    the game stays on the setup screen with no batch. *)
Lemma start_without_digit_type_alerts :
  let w := step ClickStart (initialWorld noDigitSettings sevenths) in
  gameState (st w) = setup /\
  allQuestions (st w) = [] /\
  timeouts w = [] /\
  outputs w = [Sound buttonClick;
               Alert "Please select at least one number type!"].
Proof. cbv zeta. repeat split; vm_compute; reflexivity. Qed.

(** C7, amended: with no class enabled, startGame only shows the alert
    "Please select at least one number type!": no question is generated,
    no timer is set, and the component state is unchanged. *)
Theorem startGame_rejects_empty_digit_types (w : World) :
  d1digit (digitTypes (settings (st w))) = false ->
  d2digit (digitTypes (settings (st w))) = false ->
  d3digit (digitTypes (settings (st w))) = false ->
  startGame w = alert "Please select at least one number type!" w /\
  step ClickStart w
  = (w |> playSound buttonClick
       |> alert "Please select at least one number type!").
Proof.
  intros H1 H2 H3.
  assert (Hs : forall v, settings (st v) = settings (st w) ->
                 startGame v = alert "Please select at least one number type!" v).
  { intros v Ev. unfold startGame. rewrite Ev, H1, H2, H3. reflexivity. }
  split; [apply Hs; reflexivity|].
  unfold step, handle. rewrite Hs by reflexivity.
  exact (commit_same (alert _ (playSound buttonClick w))).
Qed.

Lemma startGame_rejects_empty_digit_types_witness :
  let w := initialWorld noDigitSettings sevenths in
  d1digit (digitTypes (settings (st w))) = false /\
  d2digit (digitTypes (settings (st w))) = false /\
  d3digit (digitTypes (settings (st w))) = false /\
  startGame w = alert "Please select at least one number type!" w.
Proof.
  intros w. repeat (split; [reflexivity|]).
  apply (startGame_rejects_empty_digit_types w); reflexivity.
Defined.

(** ** Pause and resume *)

Lemma st_pause_resume (w : World) :
  st (step ClickResume (step ClickPause w))
  = setGameState playing (setIsPaused false
      (setGameState paused (setIsPaused true (st w)))).
Proof. unfold step. rewrite !st_commit. simpl. rewrite st_commit. reflexivity. Qed.

(** C8: Pause followed by Resume, with no timer firing in between, leaves
    the cursor, the phase flags, the questions, the displayed value and
    the answer as they were; the game is [paused] in between and [playing]
    again afterwards.  From a world where Pause is offered the whole
    component state is restored, the timer of the current phase is
    cleared while paused and armed again on Resume. *)
Theorem pause_then_resume_preserves_cursor (w : World) :
  let p := step ClickPause w in
  let r := step ClickResume p in
  (currentQuestion (st r) = currentQuestion (st w) /\
   currentNumberIndex (st r) = currentNumberIndex (st w) /\
   showingAnswer (st r) = showingAnswer (st w) /\
   calculatingAnswer (st r) = calculatingAnswer (st w) /\
   showingGetReady (st r) = showingGetReady (st w) /\
   flashingBetweenNumbers (st r) = flashingBetweenNumbers (st w) /\
   allQuestions (st r) = allQuestions (st w) /\
   displayNumber (st r) = displayNumber (st w) /\
   answer (st r) = answer (st w) /\
   currentNumbers (st r) = currentNumbers (st w) /\
   currentOperations (st r) = currentOperations (st w)) /\
  (gameState (st p) = paused /\ isPaused (st p) = true /\
   gameState (st r) = playing /\ isPaused (st r) = false) /\
  (reachable w -> enabled w ClickPause = true ->
   st r = st w /\ timeouts r = timeouts w /\ rng r = rng w /\
   effectTimer p = None /\ effectTimer r = gameLogic (st w)).
Proof.
  intros p r.
  assert (Er : st r = setGameState playing (setIsPaused false
                 (setGameState paused (setIsPaused true (st w)))))
    by apply st_pause_resume.
  assert (Ep : st p = setGameState paused (setIsPaused true (st w))).
  { unfold p, step. rewrite st_commit. reflexivity. }
  split; [rewrite Er; simpl; repeat split|].
  split; [rewrite Er, Ep; simpl; repeat split|].
  intros Hreach Hen.
  destruct (reachable_inv w Hreach) as (_ & _ & HP).
  simpl in Hen.
  assert (Hplay : gameState (st w) = playing).
  { destruct (gameState (st w)); try discriminate. reflexivity. }
  assert (Hnp : isPaused (st w) = false).
  { destruct (isPaused (st w)); [|reflexivity].
    destruct HP as [HP _]. specialize (HP eq_refl). congruence. }
  assert (Esame : st r = st w).
  { rewrite Er. clear - Hplay Hnp. destruct (st w). simpl in *. subst. reflexivity. }
  assert (Hp : effectTimer p = None).
  { unfold p, step. rewrite commit_gameState_changed.
    - apply gameLogic_not_playing. simpl. discriminate.
    - simpl. rewrite Hplay. discriminate. }
  assert (Hr : effectTimer r = gameLogic (st r)).
  { unfold r, step. rewrite commit_gameState_changed; [reflexivity|].
    fold p. rewrite Ep. simpl. discriminate. }
  split; [exact Esame|].
  split; [unfold r, p, step; rewrite !timeouts_commit; simpl;
          rewrite timeouts_commit; reflexivity|].
  split; [unfold r, p, step; rewrite !rng_commit; simpl;
          rewrite rng_commit; reflexivity|].
  split; [exact Hp|]. rewrite Hr, Esame. reflexivity.
Qed.

Lemma pause_then_resume_preserves_cursor_witness :
  let w := step (TimeoutFires 0) (step ClickStart (initialWorld smallSettings sevenths)) in
  reachable w /\
  enabled w ClickPause = true /\
  st (step ClickResume (step ClickPause w)) = st w.
Proof.
  intros w.
  destruct first_number_offers_pause_and_restart as [Hoffered _].
  split; [exact reachable_first_number|].
  split; [exact Hoffered|].
  destruct (pause_then_resume_preserves_cursor w) as (_ & _ & Hrestore).
  apply (Hrestore reachable_first_number Hoffered).
Defined.

(** * Further properties of the code *)

(** ** getDelays *)

Lemma inject_Z_le (a b : Z) : a <= b -> (inject_Z a <= inject_Z b)%Q.
Proof. intros H. rewrite <- Zle_Qle. exact H. Qed.

(** X1: at every level from 1 up, a number stays on screen between 0.5 and
    2 seconds and the calculating pause lasts between 0.8 and 5 seconds. *)
Theorem delays_bounded (lv : Z) :
  1 <= lv ->
  ((1 # 2) <= numberDelay lv)%Q /\ (numberDelay lv <= 2)%Q /\
  ((8 # 10) <= answerDelay lv)%Q /\ (answerDelay lv <= 5)%Q.
Proof.
  intros Hlv. apply inject_Z_le in Hlv. change (inject_Z 1) with 1%Q in Hlv.
  unfold numberDelay, answerDelay.
  repeat split.
  - apply Q.le_max_l.
  - apply Q.max_lub; lra.
  - apply Q.le_max_l.
  - apply Q.max_lub; lra.
Qed.

Lemma delays_bounded_witness :
  1 <= 3 /\ (numberDelay 3 <= 2)%Q.
Proof. split; [lia|]. apply (delays_bounded 3). lia. Defined.

(** X2: a higher level never gives a longer delay. *)
Theorem delays_monotone (l1 l2 : Z) :
  l1 <= l2 ->
  (numberDelay l2 <= numberDelay l1)%Q /\ (answerDelay l2 <= answerDelay l1)%Q.
Proof.
  intros Hle. apply inject_Z_le in Hle. unfold numberDelay, answerDelay.
  split; apply Q.max_le_compat_l; lra.
Qed.

Lemma delays_monotone_witness :
  2 <= 4 /\ (numberDelay 4 <= numberDelay 2)%Q.
Proof. split; [lia|]. apply (delays_monotone 2 4). lia. Defined.

(** X3: on the levels 1 to 5 the floor of the calculating pause is never
    reached: the pause is 5 - (level - 1) * 0.6 seconds, at least 2.6; the
    number delay reaches its floor of 0.5 seconds from level 4 on. *)
Theorem delays_on_selectable_levels (lv : Z) :
  1 <= lv <= 5 ->
  (answerDelay lv == 5 - (inject_Z lv - 1) * (6 # 10))%Q /\
  ((26 # 10) <= answerDelay lv)%Q /\
  (numberDelay lv == if lv <=? 4 then 2 - (inject_Z lv - 1) * (1 # 2) else 1 # 2)%Q.
Proof.
  intros [H1 H5].
  assert (Hcases : lv = 1 \/ lv = 2 \/ lv = 3 \/ lv = 4 \/ lv = 5) by lia.
  destruct Hcases as [->|[->|[->|[->| ->]]]];
    repeat split; vm_compute; try reflexivity; discriminate.
Qed.

Lemma delays_on_selectable_levels_witness :
  1 <= 5 <= 5 /\ ((26 # 10) <= answerDelay 5)%Q.
Proof. split; [lia|]. apply (delays_on_selectable_levels 5). lia. Defined.

(** ** The count inputs *)

(** X4: whatever is typed into the Questions input, the count stays within
    0..50 and no other setting changes; leaving the input brings an empty
    or zero count to 1, so the count is then within 1..50. *)
Theorem numQuestions_input_range
        (parseInt : string -> option Z) (value : string) (w : World) :
  0 <= numQuestions (settings (st w)) <= 50 ->
  let changed := onChangeNumQuestions parseInt value w in
  let left := onBlurNumQuestions changed in
  0 <= numQuestions (settings (st changed)) <= 50 /\
  1 <= numQuestions (settings (st left)) <= 50 /\
  st left = setSettings (withNumQuestions (numQuestions (settings (st left)))
                                          (settings (st w))) (st w).
Proof.
  intros Hrange changed left.
  assert (Hchanged :
            0 <= numQuestions (settings (st changed)) <= 50 /\
            st changed
            = setSettings (withNumQuestions (numQuestions (settings (st changed)))
                                            (settings (st w))) (st w)).
  { unfold changed, onChangeNumQuestions.
    assert (Hsame : st w = setSettings (withNumQuestions (numQuestions (settings (st w)))
                                         (settings (st w))) (st w)).
    { destruct (st w) as [? [] ? ? ? ? ? ? ? ? ? ? ? ? ?]. reflexivity. }
    destruct (value =? "")%string.
    - simpl. split; [lia | reflexivity].
    - destruct (parseInt value) as [num|]; [|split; assumption].
      destruct (num >=? 0); [|split; assumption].
      simpl. split; [lia | reflexivity]. }
  destruct Hchanged as [Hc Ec]. split; [exact Hc|].
  unfold left, onBlurNumQuestions.
  destruct (Z.eqb_spec (numQuestions (settings (st changed))) 0) as [E0|Hne].
  - simpl. split; [lia|]. rewrite Ec. reflexivity.
  - split; [lia | exact Ec].
Qed.

Lemma numQuestions_input_range_witness :
  let w := initialWorld defaultSettings sevenths in
  let parseInt := fun _ : string => Some 700 in
  0 <= numQuestions (settings (st w)) <= 50 /\
  0 <= numQuestions (settings (st (onChangeNumQuestions parseInt "700" w))) <= 50.
Proof.
  intros w parseInt. split; [simpl; lia|].
  apply (numQuestions_input_range parseInt "700" w). simpl. lia.
Defined.

(** X5: whatever is typed into the Numbers per Question input, the count
    stays within 0..20 and no other setting changes; leaving the input
    raises a count below 2 to 2, so the count is then within 2..20. *)
Theorem numbersPerQuestion_input_range
        (parseInt : string -> option Z) (value : string) (w : World) :
  0 <= numbersPerQuestion (settings (st w)) <= 20 ->
  let changed := onChangeNumbersPerQuestion parseInt value w in
  let left := onBlurNumbersPerQuestion changed in
  0 <= numbersPerQuestion (settings (st changed)) <= 20 /\
  2 <= numbersPerQuestion (settings (st left)) <= 20 /\
  st left
  = setSettings (withNumbersPerQuestion (numbersPerQuestion (settings (st left)))
                                        (settings (st w))) (st w).
Proof.
  intros Hrange changed left.
  assert (Hchanged :
            0 <= numbersPerQuestion (settings (st changed)) <= 20 /\
            st changed
            = setSettings
                (withNumbersPerQuestion (numbersPerQuestion (settings (st changed)))
                                        (settings (st w))) (st w)).
  { unfold changed, onChangeNumbersPerQuestion.
    assert (Hsame : st w = setSettings
                             (withNumbersPerQuestion
                                (numbersPerQuestion (settings (st w)))
                                (settings (st w))) (st w)).
    { destruct (st w) as [? [] ? ? ? ? ? ? ? ? ? ? ? ? ?]. reflexivity. }
    destruct (value =? "")%string.
    - simpl. split; [lia | reflexivity].
    - destruct (parseInt value) as [num|]; [|split; assumption].
      destruct (num >=? 0); [|split; assumption].
      simpl. split; [lia | reflexivity]. }
  destruct Hchanged as [Hc Ec]. split; [exact Hc|].
  unfold left, onBlurNumbersPerQuestion.
  destruct (Z.ltb_spec (numbersPerQuestion (settings (st changed))) 2) as [Hlt|Hge].
  - simpl. split; [lia|]. rewrite Ec. reflexivity.
  - split; [lia | exact Ec].
Qed.

Lemma numbersPerQuestion_input_range_witness :
  let w := initialWorld defaultSettings sevenths in
  let parseInt := fun _ : string => Some 1 in
  0 <= numbersPerQuestion (settings (st w)) <= 20 /\
  2 <= numbersPerQuestion
         (settings (st (onBlurNumbersPerQuestion
                          (onChangeNumbersPerQuestion parseInt "1" w)))) <= 20.
Proof.
  intros w parseInt. split; [simpl; lia|].
  apply (numbersPerQuestion_input_range parseInt "1" w). simpl. lia.
Defined.

(** ** startGame *)

Lemma generateQuestions_batchOk (s : GameSettings) (g : Rng) :
  1 <= numQuestions s -> 2 <= numbersPerQuestion s ->
  batchOk s (fst (generateQuestions s g)).
Proof.
  intros HP HN. unfold batchOk, generateQuestions.
  split; [exact HP|]. split; [exact HN|]. split.
  - rewrite questionsLoop_length. simpl. lia.
  - apply (returns_questionsLoop anyTape s); [| constructor | exact I].
    eapply returns_weaken; [apply returns_generateQuestion_shape|].
    intros q (Hn & Ho & He & _). cbv beta. unfold iterations in *.
    repeat split; try exact He; lia.
Qed.

(** The world a successful [startGame] leaves, written out. *)
Lemma startGame_started (w : World) :
  startable (settings (st w)) ->
  let gq := generateQuestions (settings (st w)) (rng w) in
  startGame w
  = mkWorld
      (mkComponent playing (settings (st w)) 1 0 0 (currentNumbers (st w))
                   (currentOperations (st w)) false false true false
                   (answer (st w)) (fst gq) (displayNumber (st w)) false)
      (effectTimer w)
      (timeouts w ++ [mkTimer 1000 (getReadyFirst (fst gq))])
      (snd gq)
      (outputs w ++ [Sound gameStart]).
Proof.
  intros (Hdigit & HN & HP) gq. unfold startGame.
  assert (Hhas : existsb (fun enabled : bool => enabled)
                   [d1digit (digitTypes (settings (st w)));
                    d2digit (digitTypes (settings (st w)));
                    d3digit (digitTypes (settings (st w)))] = true).
  { simpl. destruct Hdigit as [->|[->| ->]];
      repeat rewrite orb_true_r; reflexivity. }
  rewrite Hhas. simpl negb. cbv iota.
  destruct (Z.ltb_spec (numbersPerQuestion (settings (st w))) 2); [lia|].
  destruct (Z.ltb_spec (numQuestions (settings (st w))) 1); [lia|].
  unfold generateInto. simpl. fold gq. destruct gq as [questions g'].
  reflexivity.
Qed.

Lemma startGame_rejected (w : World) :
  ~ startable (settings (st w)) ->
  exists message, startGame w = alert message w.
Proof.
  intros Hnot. unfold startGame.
  destruct (negb _) eqn:Ehas; [eexists; reflexivity|].
  destruct (Z.ltb_spec (numbersPerQuestion (settings (st w))) 2);
    [eexists; reflexivity|].
  destruct (Z.ltb_spec (numQuestions (settings (st w))) 1);
    [eexists; reflexivity|].
  exfalso. apply Hnot. split; [|lia].
  apply negb_false_iff in Ehas. simpl in Ehas.
  destruct (d1digit _), (d2digit _), (d3digit _); auto; discriminate.
Qed.

(** X6: [startGame] starts a game exactly when a digit-size class is
    enabled, there are at least 2 numbers per question and at least 1
    question.  It then enters Get Ready with a batch made for the settings
    and one timeout pending; otherwise it shows an alert and changes
    nothing else. *)
Theorem startGame_starts_iff_startable (w : World) :
  (startable (settings (st w)) ->
   gameState (st (startGame w)) = playing /\
   showingGetReady (st (startGame w)) = true /\
   batchOk (settings (st w)) (allQuestions (st (startGame w))) /\
   timeouts (startGame w)
   = timeouts w ++ [mkTimer 1000 (getReadyFirst (allQuestions (st (startGame w))))]) /\
  (~ startable (settings (st w)) ->
   st (startGame w) = st w /\
   timeouts (startGame w) = timeouts w /\
   rng (startGame w) = rng w /\
   exists message, outputs (startGame w) = outputs w ++ [Alert message]).
Proof.
  split.
  - intros Hok. rewrite (startGame_started w Hok). simpl.
    destruct Hok as (_ & HN & HP).
    split; [reflexivity|]. split; [reflexivity|].
    split; [|reflexivity]. apply generateQuestions_batchOk; assumption.
  - intros Hnot. destruct (startGame_rejected w Hnot) as [message ->].
    repeat split. exists message. reflexivity.
Qed.

Lemma startGame_starts_iff_startable_witness :
  let w := initialWorld smallSettings sevenths in
  let v := initialWorld (withNumbersPerQuestion 1 smallSettings) sevenths in
  startable (settings (st w)) /\
  gameState (st (startGame w)) = playing /\
  ~ startable (settings (st v)) /\
  st (startGame v) = st v.
Proof.
  intros w v.
  assert (Hw : startable (settings (st w))).
  { unfold startable. simpl. split; [left; reflexivity | lia]. }
  assert (Hv : ~ startable (settings (st v))).
  { unfold startable. simpl. lia. }
  split; [exact Hw|]. split.
  - apply (startGame_starts_iff_startable w). exact Hw.
  - split; [exact Hv|]. apply (startGame_starts_iff_startable v). exact Hv.
Defined.

(** ** More on the generator *)

Lemma boundInv_step (s : GameSettings) (l : Locals.t) :
  boundInv l -> returns unitTape (loopBody s l) boundInv.
Proof.
  intros (Hlen & Heval & Hpre).
  assert (Hrt : 1 <= Locals.runningTotal l
                <= 999 * (Z.of_nat (List.length (Locals.operations l)) + 1)).
  { destruct (Hpre _ (Nat.le_refl _)) as (v & Ev & Hv).
    rewrite evalPrefix_all, Heval in Ev. injection Ev as <-. exact Hv. }
  eapply returns_weaken.
  - apply (returns_loopBody unitTape unitTape_advance s l (inEnabledClass s)).
    apply returns_generateNumber.
  - intros l' (m & op & Hm & Hop & En & Eo & Ert).
    pose proof (inEnabledClass_pos s m Hm) as Hmpos.
    assert (Hnew : evalLeft (Locals.numbers l') (Locals.operations l')
                   = Some (Locals.runningTotal l')).
    { rewrite En, Eo, <- Ert. apply evalLeft_snoc; assumption. }
    unfold boundInv. repeat split.
    + rewrite En, Eo, !length_app. simpl. lia.
    + exact Hnew.
    + intros k Hk.
      destruct (Nat.le_gt_cases k (List.length (Locals.operations l))) as [Hold|Hlast].
      * rewrite En, Eo, evalPrefix_snoc_old by assumption. apply Hpre. exact Hold.
      * assert (Ek : k = S (List.length (Locals.operations l))).
        { rewrite Eo, length_app in Hk. simpl in Hk. lia. }
        rewrite evalPrefix_beyond, Hnew
          by (rewrite Eo, length_app; simpl; lia).
        eexists. split; [reflexivity|].
        destruct Hop as [E|(E & _ & Hlt)]; rewrite E in Ert; simpl in Ert;
          injection Ert as <-; lia.
Qed.

(** X7: when the draws lie in [0,1), the value after the first [k]
    operators of a generated question lies between 1 and 999 * (k + 1): a
    running total never reaches 0, and the answer is at most 999 times the
    number of operands. *)
Theorem generateQuestion_prefixes_bounded (s : GameSettings) (g : Rng) :
  unitTape g ->
  let q := fst (generateQuestion s g) in
  (forall k, (k <= List.length (Question.operations q))%nat ->
     exists v, evalPrefix k (Question.numbers q) (Question.operations q) = Some v /\
               1 <= v <= 999 * (Z.of_nat k + 1)) /\
  1 <= Question.answer q <= 999 * Z.of_nat (List.length (Question.numbers q)).
Proof.
  intros Hg.
  assert (H : returns unitTape (generateQuestion s)
                (fun q =>
                   (forall k, (k <= List.length (Question.operations q))%nat ->
                      exists v,
                        evalPrefix k (Question.numbers q) (Question.operations q)
                        = Some v /\ 1 <= v <= 999 * (Z.of_nat k + 1)) /\
                   1 <= Question.answer q
                   <= 999 * Z.of_nat (List.length (Question.numbers q)))).
  { unfold generateQuestion.
    eapply returns_bind; [apply returns_generateNumber|]. intros n0 Hn0.
    pose proof (inEnabledClass_pos s n0 Hn0) as Hpos.
    eapply returns_bind.
    - apply (returns_loop unitTape s (fun _ => boundInv)).
      + intros _ l. apply boundInv_step.
      + unfold boundInv.
        cbn [Locals.numbers Locals.operations Locals.runningTotal List.length].
        split; [reflexivity|]. split; [reflexivity|].
        intros k Hk. exists n0. split; [|lia].
        unfold evalPrefix. rewrite firstn_nil. reflexivity.
    - intros l (Hlen & Heval & Hpre). apply returns_ret.
      cbn [Question.numbers Question.operations Question.answer].
      split; [exact Hpre|].
      destruct (Hpre _ (Nat.le_refl _)) as (v & Ev & Hv).
      rewrite evalPrefix_all, Heval in Ev. injection Ev as <-.
      rewrite Hlen. lia. }
  exact (proj1 (H g Hg)).
Qed.

Lemma generateQuestion_prefixes_bounded_witness :
  unitTape sevenths /\
  1 <= Question.answer (fst (generateQuestion defaultSettings sevenths))
  <= 999 * Z.of_nat (List.length
                       (Question.numbers (fst (generateQuestion defaultSettings sevenths)))).
Proof.
  split; [exact unitTape_sevenths|].
  apply (generateQuestion_prefixes_bounded defaultSettings sevenths).
  exact unitTape_sevenths.
Defined.

(** ** The invariant of the sequencer *)

Lemma gameLogic_deps (a b : Component) : deps a = deps b -> gameLogic a = gameLogic b.
Proof.
  destruct a, b. unfold deps. simpl. intros E. injection E as -> -> -> -> -> -> -> -> -> -> -> ->.
  reflexivity.
Qed.

Lemma commit_rearm (before : Component) (h : World) :
  effectTimer h = gameLogic before \/ deps before <> deps (st h) ->
  commit before h
  = mkWorld (st h) (gameLogic (st h)) (timeouts h) (rng h) (outputs h).
Proof.
  intros Hcase. unfold commit.
  destruct (Deps_eq_dec (deps before) (deps (st h))) as [E|Hne]; [|reflexivity].
  destruct Hcase as [Heff|Hne]; [|now destruct Hne].
  rewrite <- (gameLogic_deps _ _ E), <- Heff. destruct h. reflexivity.
Qed.

Lemma no_TypeError_snoc (outs : list Output) (o : Output) :
  ~ In TypeError outs -> o <> TypeError -> ~ In TypeError (outs ++ [o]).
Proof.
  intros Hno Ho Hin. apply in_app_or in Hin. destruct Hin as [Hin|[E|[]]].
  - exact (Hno Hin).
  - exact (Ho E).
Qed.

Lemma index_bounds {A} (l : list A) (i : Z) (a : A) :
  index l i = Some a -> 0 <= i < Z.of_nat (List.length l) /\ In a l.
Proof.
  unfold index. destruct (Z.ltb_spec i 0) as [|Hi]; [discriminate|].
  intros E. split.
  - assert (Z.to_nat i < List.length l)%nat by (apply nth_error_Some; congruence). lia.
  - eapply nth_error_In. exact E.
Qed.

Lemma batchOk_question (s : GameSettings) (qs : list Question.t) (i : Z) (q : Question.t) :
  batchOk s qs -> index qs i = Some q ->
  0 <= i < numQuestions s /\
  Z.of_nat (List.length (Question.numbers q)) = numbersPerQuestion s /\
  evalLeft (Question.numbers q) (Question.operations q) = Some (Question.answer q).
Proof.
  intros (_ & _ & Hlen & Hall) Hq.
  destruct (index_bounds qs i q Hq) as [Hi Hin].
  rewrite Forall_forall in Hall. destruct (Hall q Hin) as (Hn & _ & He).
  repeat split; try assumption; lia.
Qed.

Arguments remaining : simpl never.
Arguments deps : simpl never.

Lemma deps_phase (a b : Component) :
  deps a = deps b ->
  gameState a = gameState b /\ showingAnswer a = showingAnswer b /\
  calculatingAnswer a = calculatingAnswer b /\
  flashingBetweenNumbers a = flashingBetweenNumbers b /\
  showingGetReady a = showingGetReady b.
Proof. unfold deps. intros E. repeat split; congruence. Qed.

Ltac flags H := destruct H as (? & ? & ? & ?).

Ltac fields :=
  cbn [gameState settings nextQuestionNumber currentQuestion currentNumberIndex
       currentNumbers currentOperations showingAnswer calculatingAnswer
       showingGetReady flashingBetweenNumbers answer allQuestions displayNumber
       isPaused st effectTimer timeouts rng outputs
       update emit playSound alert setTimeout beginCalculating
       setGameState setSettings setNextQuestionNumber setCurrentQuestion
       setCurrentNumberIndex setCurrentNumbers setCurrentOperations
       setShowingAnswer setCalculatingAnswer setShowingGetReady
       setFlashingBetweenNumbers setAnswer setAllQuestions setDisplayNumber
       setIsPaused modifyCurrentNumberIndex].

Ltac deps_differ :=
  let E := fresh "E" in
  intros E; apply deps_phase in E;
  cbn [gameState showingAnswer calculatingAnswer showingGetReady
       flashingBetweenNumbers st update emit playSound setTimeout beginCalculating
       setGameState setSettings setNextQuestionNumber setCurrentQuestion
       setCurrentNumberIndex setCurrentNumbers setCurrentOperations
       setShowingAnswer setCalculatingAnswer setShowingGetReady
       setFlashingBetweenNumbers setAnswer setAllQuestions setDisplayNumber
       setIsPaused modifyCurrentNumberIndex] in E;
  destruct E as (? & ? & ? & ? & ?); discriminate.

Lemma effect_timer_fires_inv (w : World) :
  gameInv w -> enabled w EffectTimerFires = true ->
  let h := handle EffectTimerFires w in
  dataInv h /\ deps (st w) <> deps (st h) /\
  remaining (st h) = remaining (st w) - 1 /\
  (gameState (st h) = playing \/ gameState (st h) = results) /\
  gameState (st w) = playing.
Proof.
  intros [Heff (Hnoerr & Hstate)] Hen.
  simpl in Hen. destruct (effectTimer w) as [t|] eqn:Et; [|discriminate].
  assert (Harmed : gameLogic (st w) <> None) by (rewrite <- Heff; discriminate).
  destruct (gameLogic_armed _ Harmed) as (Hplay & Hready & Hnp).
  rewrite Hplay in Hstate. destruct Hstate as (_ & Hbatch & Hphase).
  destruct Hphase as [(Hf & _)|[(Hf & _)|[Htos (Hon & Hsub)]]];
    [flags Hf; congruence | flags Hf; congruence |].
  destruct Hon as (q & Hidx & Hnums & Hops & Hans & Hlen & Hcni).
  destruct (batchOk_question _ _ _ _ Hbatch Hidx) as (Hcq & HqN & Hqe).
  pose proof Hbatch as (HP & HN & Hqs & _).
  destruct w as [c eff tos g outs].
  destruct c as [gs s nqn cq cni cns cops sa ca gr fl ans qs dn ip].
  unfold handle. cbn [effectTimer st timeouts rng outputs] in *.
  cbn [gameState settings nextQuestionNumber currentQuestion currentNumberIndex
       currentNumbers currentOperations showingAnswer calculatingAnswer
       showingGetReady flashingBetweenNumbers answer allQuestions displayNumber
       isPaused] in *.
  subst gs gr ip tos eff.
  unfold gameLogic in Heff. simpl in Heff. rewrite Hidx in Heff.
  destruct Hsub as [(Hf & Hshow)|[(Hf & Hshow & Hlt)|[(Hf & Hlast & Hdn)|(Hf & Hlast & Hdn)]]];
    flags Hf; unfold showsNumber, atLastNumber in *; simpl in *; subst.
  - (* a number is shown *)
    destruct (Z.ltb_spec cni (Z.of_nat (List.length (Question.numbers q)))) as [_|Hge];
      [|lia].
    injection Heff as ->. cbv zeta. simpl.
    destruct (Z.ltb_spec cni (Z.of_nat (List.length (Question.numbers q)) - 1))
      as [Hmore|Hlast].
    + split; [|split; [deps_differ|
               split; [unfold remaining; fields; lia | split; [left|]; reflexivity]]].
      unfold dataInv. simpl. split; [exact Hnoerr|].
      split; [reflexivity|]. split; [exact Hbatch|].
      right; right. split; [reflexivity|]. split.
      * exists q. simpl. repeat split; auto; lia.
      * right; left. unfold flagsAre, showsNumber. simpl.
        repeat split; auto. lia.
    + split; [|split; [deps_differ|
               split; [unfold remaining; fields; lia | split; [left|]; reflexivity]]].
      unfold dataInv. simpl.
      split; [apply no_TypeError_snoc; [exact Hnoerr | discriminate]|].
      split; [reflexivity|]. split; [exact Hbatch|].
      right; right. split; [reflexivity|]. split.
      * exists q. simpl. repeat split; auto; lia.
      * right; right; left. unfold flagsAre, atLastNumber. simpl.
        repeat split; auto. lia.
  - (* dimmed between two numbers *)
    injection Heff as ->. cbv zeta. simpl.
    destruct (Z.ltb_spec cni (Z.of_nat (List.length (Question.numbers q)) - 1))
      as [_|Hlast]; [|lia].
    destruct (index_in_range (Question.numbers q) (cni + 1)) as (n & Hn & _); [lia|].
    rewrite Hn. simpl.
    split; [|split; [deps_differ|
             split; [unfold remaining; fields; lia | split; [left|]; reflexivity]]].
    unfold dataInv. simpl. split; [exact Hnoerr|].
    split; [reflexivity|]. split; [exact Hbatch|].
    right; right. split; [reflexivity|]. split.
    + exists q. simpl. repeat split; auto; lia.
    + left. unfold flagsAre, showsNumber. simpl. split; [repeat split|].
      exists n. split; [exact Hn | reflexivity].
  - (* calculating *)
    injection Heff as ->. cbv zeta. simpl.
    split; [|split; [deps_differ|
             split; [unfold remaining; fields; lia | split; [left|]; reflexivity]]].
    unfold dataInv. simpl.
    split; [apply no_TypeError_snoc; [exact Hnoerr | discriminate]|].
    split; [reflexivity|]. split; [exact Hbatch|].
    right; right. split; [reflexivity|]. split.
    + exists q. simpl. repeat split; auto; lia.
    + right; right; right. unfold flagsAre, atLastNumber. simpl.
      repeat split; auto.
  - (* the answer is shown *)
    injection Heff as ->. cbv zeta. simpl.
    destruct (Z.ltb_spec cq (Z.of_nat (List.length qs) - 1)) as [Hmore|Hlastq].
    + simpl.
      split; [|split; [deps_differ|
               split; [unfold remaining; fields; lia | split; [left|]; reflexivity]]].
      unfold dataInv. simpl.
      split; [apply no_TypeError_snoc; [exact Hnoerr | discriminate]|].
      split; [reflexivity|]. split; [exact Hbatch|].
      right; left. unfold nextGetReady, flagsAre. simpl.
      split; [repeat split|]. split.
      * exists q. simpl. repeat split; auto; lia.
      * repeat split; lia.
    + simpl.
      assert (Ecq : cq = numQuestions s - 1) by lia.
      split; [|split; [deps_differ|
               split; [unfold remaining; fields; rewrite Ecq; lia
                      | split; [right|]; reflexivity]]].
      unfold dataInv. simpl.
      split; [repeat apply no_TypeError_snoc; try discriminate; exact Hnoerr|].
      split; [reflexivity|]. split; [exact Hbatch|].
      split; [reflexivity|]. split; [|split; [reflexivity | lia]].
      split.
      * exists q. simpl. repeat split; auto; lia.
      * right; right; right. unfold flagsAre, atLastNumber. simpl.
        repeat split; auto.
Qed.

Lemma timeout_fires_inv (w : World) (i : nat) :
  gameInv w -> enabled w (TimeoutFires i) = true ->
  let h := handle (TimeoutFires i) w in
  dataInv h /\ effectTimer h = effectTimer w /\
  remaining (st h) = remaining (st w) - 1 /\
  gameState (st h) = playing /\ gameState (st w) = playing.
Proof.
  intros [Heff (Hnoerr & Hstate)] Hen.
  simpl in Hen. apply Nat.ltb_lt in Hen.
  destruct w as [c eff tos g outs].
  destruct c as [gs s nqn cq cni cns cops sa ca gr fl ans qs dn ip].
  unfold handle. cbn [effectTimer st timeouts rng outputs] in *.
  cbn [gameState settings nextQuestionNumber currentQuestion currentNumberIndex
       currentNumbers currentOperations showingAnswer calculatingAnswer
       showingGetReady flashingBetweenNumbers answer allQuestions displayNumber
       isPaused] in *.
  assert (Hempty : tos = [] -> False).
  { intros ->. simpl in Hen. lia. }
  destruct gs;
    [destruct Hstate as (_ & Ht & _); now destruct (Hempty Ht)
    | | destruct Hstate as (_ & _ & Ht & _); now destruct (Hempty Ht)
    | destruct Hstate as (_ & _ & Ht & _); now destruct (Hempty Ht)].
  destruct Hstate as (Hip & Hbatch & Hphase).
  pose proof Hbatch as (HP & HN & Hqs & _).
  destruct Hphase as [(Hf & Hcq & Hcni & Hnqn & Ht)
                     |[(Hf & Hon & Hnqn & Hmore & Ht)
                      |[Ht _]]];
    [| | now destruct (Hempty Ht)];
    flags Hf; fields; cbn [st timeouts gameState settings nextQuestionNumber
      currentQuestion currentNumberIndex currentNumbers currentOperations
      showingAnswer calculatingAnswer showingGetReady flashingBetweenNumbers
      answer allQuestions displayNumber isPaused] in *; subst;
    simpl in Hen; assert (i = O) as -> by lia; cbv zeta; simpl.
  - (* before the first question *)
    destruct (Z.ltb_spec 0 (Z.of_nat (List.length qs))) as [_|Hnone]; [|lia].
    destruct (index_in_range qs 0) as (q & Hq & _); [lia|].
    rewrite Hq.
    destruct (batchOk_question _ _ 0 q Hbatch Hq) as (_ & HqN & _).
    destruct (index_in_range (Question.numbers q) 0) as (n & Hn & _); [lia|].
    unfold showQuestion. rewrite Hn. simpl.
    split; [|split; [reflexivity|
             split; [unfold remaining; fields; lia | split; reflexivity]]].
    unfold dataInv. simpl.
    split; [apply no_TypeError_snoc; [exact Hnoerr | discriminate]|].
    split; [reflexivity|]. split; [exact Hbatch|].
    right; right. split; [reflexivity|]. split.
    + exists q. simpl. repeat split; auto; lia.
    + left. unfold flagsAre, showsNumber. simpl. split; [repeat split|].
      exists n. split; [exact Hn | reflexivity].
  - (* between two questions *)
    destruct Hon as (q0 & Hidx & _ & _ & _ & _ & _).
    cbn [allQuestions currentQuestion] in Hidx.
    destruct (index_bounds _ _ _ Hidx) as [Hcq _].
    destruct (index_in_range qs (cq + 1)) as (q & Hq & _); [lia|].
    rewrite Hq.
    destruct (batchOk_question _ _ _ q Hbatch Hq) as (_ & HqN & _).
    destruct (index_in_range (Question.numbers q) 0) as (n & Hn & _); [lia|].
    unfold showQuestion. rewrite Hn. simpl.
    split; [|split; [reflexivity|
             split; [unfold remaining; fields; lia | split; reflexivity]]].
    unfold dataInv. simpl.
    split; [apply no_TypeError_snoc; [exact Hnoerr | discriminate]|].
    split; [reflexivity|]. split; [exact Hbatch|].
    right; right. split; [reflexivity|]. split.
    + exists q. simpl. repeat split; auto; lia.
    + left. unfold flagsAre, showsNumber. simpl. split; [repeat split|].
      exists n. split; [exact Hn | reflexivity].
Qed.

Lemma startable_dec (s : GameSettings) : startable s \/ ~ startable s.
Proof.
  unfold startable.
  destruct (d1digit (digitTypes s)), (d2digit (digitTypes s)),
    (d3digit (digitTypes s));
    destruct (Z.le_gt_cases 2 (numbersPerQuestion s));
    destruct (Z.le_gt_cases 1 (numQuestions s));
    try (left; repeat split; auto; fail);
    right; intros (Hd & HN & HP); try lia;
    destruct Hd as [Hd|[Hd|Hd]]; discriminate.
Qed.

Lemma click_inv (e : Event) (w : World) :
  gameInv w -> enabled w e = true -> isTimerEvent e = false ->
  dataInv (handle e w) /\ effectTimer (handle e w) = effectTimer w.
Proof.
  intros [Heff (Hnoerr & Hstate)] Hen Hclick.
  destruct e; try discriminate; simpl in Hen.
  - (* ClickStart *)
    destruct (gameState (st w)) eqn:Egs; try discriminate.
    destruct Hstate as (Hip & Ht & Hf).
    unfold handle.
    destruct (startable_dec (settings (st w))) as [Hok|Hnot].
    + rewrite (startGame_started (playSound buttonClick w) Hok).
      split; [|reflexivity].
      unfold dataInv. fields. rewrite Ht.
      split; [repeat apply no_TypeError_snoc; try discriminate; exact Hnoerr|].
      split; [reflexivity|].
      destruct Hok as (_ & HN & HP).
      split; [apply generateQuestions_batchOk; assumption|].
      left. unfold firstGetReady, flagsAre. fields. repeat split.
    + destruct (startGame_rejected (playSound buttonClick w) Hnot) as [message ->].
      split; [|reflexivity].
      unfold dataInv. fields. rewrite Egs.
      split; [repeat apply no_TypeError_snoc; try discriminate; exact Hnoerr|].
      repeat split; try assumption; apply Hf.
  - (* ClickPause *)
    destruct (gameState (st w)) eqn:Egs; try discriminate.
    apply negb_true_iff in Hen.
    destruct Hstate as (Hip & Hbatch & Hphase).
    destruct Hphase as [(Hf & _)|[(Hf & _)|[Ht Hpres]]];
      [flags Hf; congruence | flags Hf; congruence |].
    split; [|reflexivity].
    unfold dataInv, handle, pauseGame. fields.
    split; [repeat apply no_TypeError_snoc; try discriminate; exact Hnoerr|].
    split; [reflexivity|]. split; [exact Hbatch|]. split; [exact Ht|].
    exact Hpres.
  - (* ClickResume *)
    destruct (gameState (st w)) eqn:Egs; try discriminate.
    destruct Hstate as (Hip & Hbatch & Ht & Hpres).
    split; [|reflexivity].
    unfold dataInv, handle, resumeGame. fields.
    split; [repeat apply no_TypeError_snoc; try discriminate; exact Hnoerr|].
    split; [reflexivity|]. split; [exact Hbatch|].
    right; right. split; [exact Ht | exact Hpres].
  - (* ClickRestart *)
    assert (Ht : timeouts w = []).
    { destruct (gameState (st w)) eqn:Egs; try discriminate.
      - apply negb_true_iff in Hen.
        destruct Hstate as (_ & _ & [(Hf & _)|[(Hf & _)|[Ht _]]]);
          [flags Hf; congruence | flags Hf; congruence | exact Ht].
      - apply Hstate.
      - apply Hstate. }
    split; [|reflexivity].
    unfold dataInv, handle, restartGame. fields.
    split; [repeat apply no_TypeError_snoc; try discriminate; exact Hnoerr|].
    split; [reflexivity|]. split; [exact Ht|].
    unfold flagsAre. fields. repeat split.
  - (* ChangeSettings *)
    destruct (gameState (st w)) eqn:Egs; try discriminate.
    destruct Hstate as (Hip & Ht & Hf).
    split; [|reflexivity].
    unfold dataInv, handle, updateSettings. fields. rewrite Egs.
    split; [repeat apply no_TypeError_snoc; try discriminate; exact Hnoerr|].
    repeat split; try assumption; apply Hf.
Qed.

Lemma dataInv_rearmed (h : World) (t : option (Timer EffectCallback)) :
  dataInv h -> dataInv (mkWorld (st h) t (timeouts h) (rng h) (outputs h)).
Proof. intros H. exact H. Qed.

Lemma step_gameInv (e : Event) (w : World) :
  gameInv w -> enabled w e = true ->
  gameInv (step e w) /\
  (isTimerEvent e = true ->
   remaining (st (step e w)) = remaining (st w) - 1 /\
   gameState (st w) = playing /\
   (gameState (st (step e w)) = playing \/ gameState (st (step e w)) = results)).
Proof.
  intros Hinv Hen. pose proof Hinv as [Heff _]. unfold step.
  destruct (isTimerEvent e) eqn:Ekind.
  - destruct e; try discriminate.
    + destruct (effect_timer_fires_inv w Hinv Hen) as (Hd & Hdeps & Hrem & Hgs & Hplay).
      rewrite commit_rearm by (right; exact Hdeps).
      split; [split; [reflexivity | apply dataInv_rearmed; exact Hd]|].
      intros _. repeat split; assumption.
    + destruct (timeout_fires_inv w i Hinv Hen) as (Hd & Hsame & Hrem & Hgs & Hplay).
      rewrite commit_rearm by (left; congruence).
      split; [split; [reflexivity | apply dataInv_rearmed; exact Hd]|].
      intros _. repeat split; try assumption. left. exact Hgs.
  - destruct (click_inv e w Hinv Hen Ekind) as (Hd & Hsame).
    rewrite commit_rearm by (left; congruence).
    split; [split; [reflexivity | apply dataInv_rearmed; exact Hd]|].
    discriminate.
Qed.

Lemma reachable_gameInv (w : World) : reachable w -> gameInv w.
Proof.
  induction 1 as [s g|w e _ IH Hen].
  - split; [reflexivity|]. unfold dataInv, flagsAre. simpl.
    split; [intros []|]. repeat split.
  - apply step_gameInv; assumption.
Qed.

Lemma gameLogic_get_ready (c : Component) :
  showingGetReady c = true -> gameLogic c = None.
Proof.
  intros H. unfold gameLogic. rewrite H, orb_true_r. reflexivity.
Qed.

Lemma gameLogic_presenting (c : Component) :
  gameState c = playing -> isPaused c = false -> presenting c ->
  exists t, gameLogic c = Some t.
Proof.
  intros Hplay Hnp ((q & Hidx & Hnums & _ & _ & Hlen & Hcni) & Hsub).
  unfold gameLogic. rewrite Hplay, Hnp, Hidx.
  destruct Hsub as [(Hf & _)|[(Hf & _)|[(Hf & _)|(Hf & _)]]];
    destruct Hf as (Hsa & Hca & Hgr & Hfl); rewrite Hgr, Hsa; simpl;
    try (eexists; reflexivity); rewrite Hca; try (eexists; reflexivity);
    rewrite Hfl; try (eexists; reflexivity).
  destruct (Z.ltb_spec (currentNumberIndex c)
              (Z.of_nat (List.length (currentNumbers c)))) as [_|Hge]; [|lia].
  eexists. reflexivity.
Qed.

Lemma gameInv_flags (w : World) :
  gameInv w ->
  (Nat.b2n (showingAnswer (st w)) + Nat.b2n (calculatingAnswer (st w))
   + Nat.b2n (showingGetReady (st w))
   + Nat.b2n (flashingBetweenNumbers (st w)) <= 1)%nat.
Proof.
  intros (_ & _ & Hstate).
  assert (Hpres : presenting (st w) ->
          (Nat.b2n (showingAnswer (st w)) + Nat.b2n (calculatingAnswer (st w))
           + Nat.b2n (showingGetReady (st w))
           + Nat.b2n (flashingBetweenNumbers (st w)) <= 1)%nat).
  { intros (_ & [(Hf & _)|[(Hf & _)|[(Hf & _)|(Hf & _)]]]);
      destruct Hf as (-> & -> & -> & ->); simpl; lia. }
  destruct (gameState (st w)).
  - destruct Hstate as (_ & _ & Hf). destruct Hf as (-> & -> & -> & ->). simpl. lia.
  - destruct Hstate as (_ & _ & [(Hf & _)|[(Hf & _)|[_ Hp]]]);
      [destruct Hf as (-> & -> & -> & ->); simpl; lia
      |destruct Hf as (-> & -> & -> & ->); simpl; lia
      |exact (Hpres Hp)].
  - apply Hpres, Hstate.
  - apply Hpres, Hstate.
Qed.

(** X8: in every reachable world at most one of the four phase flags
    [showingAnswer], [calculatingAnswer], [showingGetReady] and
    [flashingBetweenNumbers] is set. *)
Theorem phase_flags_exclusive (w : World) :
  reachable w ->
  (Nat.b2n (showingAnswer (st w)) + Nat.b2n (calculatingAnswer (st w))
   + Nat.b2n (showingGetReady (st w))
   + Nat.b2n (flashingBetweenNumbers (st w)) <= 1)%nat.
Proof. intros Hreach. apply gameInv_flags, reachable_gameInv, Hreach. Qed.

Lemma gameInv_idle (w : World) :
  gameInv w -> gameState (st w) <> playing ->
  effectTimer w = None /\ timeouts w = [].
Proof.
  intros (Heff & _ & Hstate) Hne.
  split; [rewrite Heff; apply gameLogic_not_playing; exact Hne|].
  destruct (gameState (st w)); try apply Hstate. now destruct Hne.
Qed.

(** X9: in every reachable world at most one timer is pending, counting
    the effect's timer and the dropped timeouts together, and none is
    pending on the setup, paused and results screens. *)
Theorem at_most_one_timer_pending (w : World) :
  reachable w ->
  (match effectTimer w with Some _ => 1 | None => 0 end
   + List.length (timeouts w) <= 1)%nat /\
  (gameState (st w) <> playing -> effectTimer w = None /\ timeouts w = []).
Proof.
  intros Hreach. pose proof (reachable_gameInv w Hreach) as Hinv.
  pose proof (gameInv_idle w Hinv) as Hidle.
  destruct Hinv as (Heff & _ & Hstate).
  split; [|exact Hidle].
  destruct (gameState (st w)) eqn:Egs;
    try (destruct Hidle as [-> ->]; [discriminate | simpl; lia]).
  destruct Hstate as (_ & _ & [(Hf & _ & _ & _ & Ht)|[(Hf & _ & _ & _ & Ht)|[Ht _]]]).
  - destruct Hf as (_ & _ & Hgr & _).
    rewrite Heff, (gameLogic_get_ready _ Hgr), Ht. simpl. lia.
  - destruct Hf as (_ & _ & Hgr & _).
    rewrite Heff, (gameLogic_get_ready _ Hgr), Ht. simpl. lia.
  - rewrite Ht. destruct (effectTimer w); simpl; lia.
Qed.

Lemma pendingTimer_playing (w : World) :
  gameInv w -> gameState (st w) = playing ->
  exists e, pendingTimer w = Some e /\ enabled w e = true /\ isTimerEvent e = true.
Proof.
  intros (Heff & _ & Hstate) Hplay. rewrite Hplay in Hstate.
  destruct Hstate as (Hnp & _ & [(Hf & _ & _ & _ & Ht)|[(Hf & _ & _ & _ & Ht)|[Ht Hp]]]).
  - destruct Hf as (_ & _ & Hgr & _).
    exists (TimeoutFires 0). unfold pendingTimer, enabled.
    rewrite Heff, (gameLogic_get_ready _ Hgr), Ht. repeat split.
  - destruct Hf as (_ & _ & Hgr & _).
    exists (TimeoutFires 0). unfold pendingTimer, enabled.
    rewrite Heff, (gameLogic_get_ready _ Hgr), Ht. repeat split.
  - destruct (gameLogic_presenting _ Hplay Hnp Hp) as [t Et].
    exists EffectTimerFires. unfold pendingTimer, enabled.
    rewrite Heff, Et. repeat split.
Qed.

(** X10: while the game is playing exactly one timer is pending: the
    effect's timer past Get Ready, the get-ready timeout during Get Ready.
    The sequencer cannot get stuck. *)
Theorem playing_always_has_a_timer (w : World) :
  reachable w -> gameState (st w) = playing ->
  (effectTimer w <> None /\ timeouts w = [] /\ showingGetReady (st w) = false) \/
  (effectTimer w = None /\ (exists t, timeouts w = [t]) /\
   showingGetReady (st w) = true).
Proof.
  intros Hreach Hplay.
  destruct (reachable_gameInv w Hreach) as (Heff & _ & Hstate).
  rewrite Hplay in Hstate.
  destruct Hstate as (Hnp & _ & [(Hf & _ & _ & _ & Ht)|[(Hf & _ & _ & _ & Ht)|[Ht Hp]]]).
  - destruct Hf as (_ & _ & Hgr & _). right.
    rewrite Heff, (gameLogic_get_ready _ Hgr), Ht. repeat split; eauto.
  - destruct Hf as (_ & _ & Hgr & _). right.
    rewrite Heff, (gameLogic_get_ready _ Hgr), Ht. repeat split; eauto.
  - destruct (gameLogic_presenting _ Hplay Hnp Hp) as [t Et]. left.
    rewrite Heff, Et. split; [discriminate|]. split; [exact Ht|].
    destruct Hp as (_ & [(Hf & _)|[(Hf & _)|[(Hf & _)|(Hf & _)]]]); apply Hf.
Qed.

(** X11: in no reachable world has a timer callback read a missing
    question or number: no TypeError is ever raised. *)
Theorem callbacks_never_throw (w : World) :
  reachable w -> ~ In TypeError (outputs w).
Proof. intros Hreach. apply (reachable_gameInv w Hreach). Qed.

(** X12: the pending effect timer is the one the effect arms for the
    current state, and every pending callback captured the current cursor,
    numbers, answer and batch: no timer fires with stale values. *)
Theorem timers_capture_current_state (w : World) :
  reachable w ->
  effectTimer w = gameLogic (st w) /\
  (forall t, effectTimer w = Some t ->
     match callback t with
     | answerShown cq qs =>
         cq = currentQuestion (st w) /\ qs = allQuestions (st w)
     | calculatingDone a => a = answer (st w)
     | flashDone i ns | numberShown i ns =>
         i = currentNumberIndex (st w) /\ ns = currentNumbers (st w)
     end) /\
  (forall t, In t (timeouts w) ->
     match callback t with
     | getReadyFirst qs => qs = allQuestions (st w)
     | getReadyNext cq qs =>
         cq = currentQuestion (st w) /\ qs = allQuestions (st w)
     end).
Proof.
  intros Hreach. destruct (reachable_gameInv w Hreach) as (Heff & _ & Hstate).
  split; [exact Heff|]. split.
  - intros t Et. rewrite Heff in Et. unfold gameLogic in Et.
    destruct (_ || _); [discriminate|].
    destruct (index _ _); [|discriminate].
    destruct (showingAnswer (st w)); [injection Et as <-; split; reflexivity|].
    destruct (calculatingAnswer (st w)); [injection Et as <-; reflexivity|].
    destruct (flashingBetweenNumbers (st w)); [injection Et as <-; split; reflexivity|].
    destruct (_ <? _); [injection Et as <-; split; reflexivity | discriminate].
  - intros t Hin.
    destruct (gameState (st w));
      try (destruct Hstate as (_ & _ & Ht & _); rewrite Ht in Hin; now destruct Hin).
    + destruct Hstate as (_ & Ht & _). rewrite Ht in Hin. now destruct Hin.
    + destruct Hstate as (_ & _ & [(_ & _ & _ & _ & Ht)|[(_ & _ & _ & _ & Ht)|[Ht _]]]);
        rewrite Ht in Hin; simpl in Hin;
        [destruct Hin as [<-|[]]; reflexivity
        |destruct Hin as [<-|[]]; split; reflexivity
        |now destruct Hin].
Qed.

Lemma in_game_data (w : World) :
  reachable w -> gameState (st w) <> setup ->
  batchOk (settings (st w)) (allQuestions (st w)) /\
  (showingGetReady (st w) = false -> presenting (st w)).
Proof.
  intros Hreach Hne. destruct (reachable_gameInv w Hreach) as (_ & _ & Hstate).
  destruct (gameState (st w)); [now destruct Hne | | |].
  - destruct Hstate as (_ & Hb & Hphase). split; [exact Hb|]. intros Hgr.
    destruct Hphase as [(Hf & _)|[(Hf & _)|[_ Hp]]];
      [flags Hf; congruence | flags Hf; congruence | exact Hp].
  - destruct Hstate as (_ & Hb & _ & Hp). split; [exact Hb | intros _; exact Hp].
  - destruct Hstate as (_ & Hb & _ & Hp & _). split; [exact Hb | intros _; exact Hp].
Qed.

(** X13: outside the setup screen the batch agrees with the settings: it
    has [numQuestions] questions, each with [numbersPerQuestion] numbers,
    one operator fewer, and an answer equal to its left-to-right value. *)
Theorem batch_matches_settings (w : World) :
  reachable w -> gameState (st w) <> setup ->
  Z.of_nat (List.length (allQuestions (st w))) = numQuestions (settings (st w)) /\
  1 <= numQuestions (settings (st w)) /\
  2 <= numbersPerQuestion (settings (st w)) /\
  Forall (fun q =>
            Z.of_nat (List.length (Question.numbers q))
            = numbersPerQuestion (settings (st w)) /\
            Z.of_nat (List.length (Question.operations q))
            = numbersPerQuestion (settings (st w)) - 1 /\
            evalLeft (Question.numbers q) (Question.operations q)
            = Some (Question.answer q))
         (allQuestions (st w)).
Proof.
  intros Hreach Hne.
  destruct (in_game_data w Hreach Hne) as ((HP & HN & Hlen & Hall) & _).
  repeat split; assumption.
Qed.

(** X14: past Get Ready the cursor is inside the batch and inside the
    question, and the numbers, operations and answer held in the state are
    those of the question under the cursor. *)
Theorem cursor_points_at_current_question (w : World) :
  reachable w -> gameState (st w) <> setup -> showingGetReady (st w) = false ->
  exists q,
    index (allQuestions (st w)) (currentQuestion (st w)) = Some q /\
    currentNumbers (st w) = Question.numbers q /\
    currentOperations (st w) = Question.operations q /\
    answer (st w) = Question.answer q /\
    0 <= currentQuestion (st w) < numQuestions (settings (st w)) /\
    0 <= currentNumberIndex (st w) < Z.of_nat (List.length (currentNumbers (st w))).
Proof.
  intros Hreach Hne Hgr.
  destruct (in_game_data w Hreach Hne) as (Hb & Hp).
  destruct (Hp Hgr) as ((q & Hidx & Hn & Ho & Ha & Hlen & Hcni) & _).
  destruct (batchOk_question _ _ _ _ Hb Hidx) as (Hcq & _).
  exists q. repeat split; try assumption; lia.
Qed.


Lemma batchOk_operations (s : GameSettings) (qs : list Question.t) (i : Z) (q : Question.t) :
  batchOk s qs -> index qs i = Some q ->
  Z.of_nat (List.length (Question.operations q)) = numbersPerQuestion s - 1.
Proof.
  intros (_ & _ & _ & Hall) Hq.
  destruct (index_bounds qs i q Hq) as [_ Hin].
  rewrite Forall_forall in Hall. apply (Hall q Hin).
Qed.

Lemma showingAnswer_presenting (w : World) :
  reachable w -> gameState (st w) <> setup -> showingAnswer (st w) = true ->
  showingGetReady (st w) = false.
Proof.
  intros Hreach _ Hsa.
  pose proof (gameInv_flags w (reachable_gameInv w Hreach)) as H.
  rewrite Hsa in H. destruct (showingGetReady (st w)); [|reflexivity].
  simpl in H. lia.
Qed.

(** X15: when the answer is shown, the displayed text is the answer, the
    answer is the left-to-right value of the numbers that were shown, and
    the cursor stands on the last number. *)
Theorem revealed_answer_is_correct (w : World) :
  reachable w -> gameState (st w) <> setup -> showingAnswer (st w) = true ->
  displayNumber (st w) = toString (answer (st w)) /\
  evalLeft (currentNumbers (st w)) (currentOperations (st w)) = Some (answer (st w)) /\
  currentNumberIndex (st w) = Z.of_nat (List.length (currentNumbers (st w))) - 1.
Proof.
  intros Hreach Hne Hsa.
  pose proof (showingAnswer_presenting w Hreach Hne Hsa) as Hgr.
  destruct (in_game_data w Hreach Hne) as (Hb & Hp).
  destruct (Hp Hgr) as ((q & Hidx & Hn & Ho & Ha & Hlen & Hcni) & Hsub).
  destruct (batchOk_question _ _ _ _ Hb Hidx) as (_ & _ & He).
  destruct Hsub as [(Hf & _)|[(Hf & _)|[(Hf & _)|(Hf & Hlast & Hdn)]]];
    try (flags Hf; congruence).
  unfold atLastNumber in Hlast.
  split; [exact Hdn|]. split; [rewrite Hn, Ho, Ha; exact He | lia].
Qed.

(** X16: before the answer is shown the display follows the cursor: it
    reads Calculating... while calculating, and otherwise it is the number
    under the cursor, for which, after the first, the operator to show
    exists. *)
Theorem display_follows_cursor (w : World) :
  reachable w -> gameState (st w) <> setup ->
  showingGetReady (st w) = false -> showingAnswer (st w) = false ->
  if calculatingAnswer (st w)
  then displayNumber (st w) = "Calculating..."%string
  else
    (exists n, index (currentNumbers (st w)) (currentNumberIndex (st w)) = Some n /\
               displayNumber (st w) = toString n) /\
    (0 < currentNumberIndex (st w) ->
     exists op, index (currentOperations (st w)) (currentNumberIndex (st w) - 1)
                = Some op).
Proof.
  intros Hreach Hne Hgr Hsa.
  destruct (in_game_data w Hreach Hne) as (Hb & Hp).
  destruct (Hp Hgr) as ((q & Hidx & Hn & Ho & Ha & Hlen & Hcni) & Hsub).
  pose proof (batchOk_operations _ _ _ _ Hb Hidx) as Hops.
  assert (Hop : 0 < currentNumberIndex (st w) ->
                exists op, index (currentOperations (st w))
                                 (currentNumberIndex (st w) - 1) = Some op).
  { intros Hpos.
    destruct (index_in_range (currentOperations (st w))
                (currentNumberIndex (st w) - 1)) as (op & Hop & _).
    - rewrite Ho. lia.
    - exists op. exact Hop. }
  destruct Hsub as [(Hf & Hshow)|[(Hf & Hshow & _)|[(Hf & _ & Hdn)|(Hf & _)]]];
    flags Hf.
  - replace (calculatingAnswer (st w)) with false by congruence. split; assumption.
  - replace (calculatingAnswer (st w)) with false by congruence. split; assumption.
  - replace (calculatingAnswer (st w)) with true by congruence. exact Hdn.
  - congruence.
Qed.

(** X17: the question number announced on the Get Ready screen lies in
    1..numQuestions; it is 1 or the number after the current question. *)
Theorem get_ready_announces_a_question (w : World) :
  reachable w -> gameState (st w) = playing -> showingGetReady (st w) = true ->
  1 <= nextQuestionNumber (st w) <= numQuestions (settings (st w)) /\
  (nextQuestionNumber (st w) = 1 \/
   nextQuestionNumber (st w) = currentQuestion (st w) + 2).
Proof.
  intros Hreach Hplay Hgr.
  destruct (reachable_gameInv w Hreach) as (_ & _ & Hstate).
  rewrite Hplay in Hstate.
  destruct Hstate as (_ & (HP & _) & [(_ & _ & _ & Hn & _)|[(_ & Hon & Hn & Hmore & _)|[_ Hp]]]).
  - split; [lia | left; exact Hn].
  - destruct Hon as (q & Hidx & _). destruct (index_bounds _ _ _ Hidx) as [Hcq _].
    split; [lia | right; exact Hn].
  - destruct Hp as (_ & [(Hf & _)|[(Hf & _)|[(Hf & _)|(Hf & _)]]]); flags Hf; congruence.
Qed.

Lemma percent_range (a b : Z) :
  0 <= a <= b -> 0 < b ->
  (0 <= inject_Z a / inject_Z b * 100)%Q /\ (inject_Z a / inject_Z b * 100 <= 100)%Q /\
  (a = b -> (inject_Z a / inject_Z b * 100 == 100)%Q).
Proof.
  intros Hab Hb. destruct b as [|b|b]; try lia.
  assert (E : (inject_Z a / inject_Z (Z.pos b) == a # b)%Q).
  { symmetry. apply Qmake_Qdiv. }
  rewrite E. unfold Qle, Qeq, Qmult. simpl.
  repeat split; lia.
Qed.

(** X18: past Get Ready the denominator of the progress bar is positive
    and its width lies between 0 and 100 percent; it is 100 when the answer
    of the last question is shown. *)
Theorem progress_bar_within_range (w : World) :
  reachable w -> gameState (st w) <> setup -> showingGetReady (st w) = false ->
  0 < numQuestions (settings (st w)) * numbersPerQuestion (settings (st w)) /\
  (0 <= progressWidth (st w))%Q /\ (progressWidth (st w) <= 100)%Q /\
  (showingAnswer (st w) = true ->
   currentQuestion (st w) = numQuestions (settings (st w)) - 1 ->
   (progressWidth (st w) == 100)%Q).
Proof.
  intros Hreach Hne Hgr.
  destruct (in_game_data w Hreach Hne) as (Hb & Hp).
  destruct (Hp Hgr) as ((q & Hidx & Hn & Ho & Ha & Hlen & Hcni) & Hsub).
  destruct (batchOk_question _ _ _ _ Hb Hidx) as (Hcq & _).
  destruct Hb as (HP & HN & _).
  set (P := numQuestions (settings (st w))) in *.
  set (N := numbersPerQuestion (settings (st w))) in *.
  assert (Hden : 0 < P * N) by nia.
  assert (Hlast : showingAnswer (st w) = true -> currentNumberIndex (st w) = N - 1).
  { intros Hsa.
    destruct Hsub as [(Hf & _)|[(Hf & _)|[(Hf & _)|(Hf & Hl & _)]]];
      try (flags Hf; congruence). exact Hl. }
  assert (Hnum : 0 <= currentQuestion (st w) * Z.of_nat (List.length (currentNumbers (st w)))
                      + currentNumberIndex (st w)
                      + (if showingAnswer (st w) then 1 else 0) <= P * N).
  { rewrite Hlen. destruct (showingAnswer (st w)).
    - rewrite (Hlast eq_refl). nia.
    - nia. }
  destruct (percent_range _ _ Hnum Hden) as (H0 & H100 & Hfull).
  split; [exact Hden|]. unfold progressWidth. fold P N.
  split; [exact H0|]. split; [exact H100|].
  intros Hsa Hq. apply Hfull. rewrite Hlen, Hsa, (Hlast Hsa), Hq. ring.
Qed.

(** X19: the results screen is reached only with the answer of the last
    question shown, the whole batch in place and no timer pending. *)
Theorem results_after_last_answer (w : World) :
  reachable w -> gameState (st w) = results ->
  showingAnswer (st w) = true /\
  currentQuestion (st w) = numQuestions (settings (st w)) - 1 /\
  Z.of_nat (List.length (allQuestions (st w))) = numQuestions (settings (st w)) /\
  effectTimer w = None /\ timeouts w = [].
Proof.
  intros Hreach Hres.
  destruct (reachable_gameInv w Hreach) as (Heff & _ & Hstate).
  rewrite Hres in Hstate.
  destruct Hstate as (_ & (_ & _ & Hlen & _) & Ht & _ & Hsa & Hcq).
  repeat split; try assumption.
  rewrite Heff. apply gameLogic_not_playing. rewrite Hres. discriminate.
Qed.

(** ** Running to completion *)

Lemma remaining_positive (w : World) :
  gameInv w -> gameState (st w) = playing -> 1 <= remaining (st w).
Proof.
  intros (_ & _ & Hstate) Hplay. rewrite Hplay in Hstate.
  destruct Hstate as (_ & Hb & Hphase). unfold remaining. rewrite Hplay.
  pose proof Hb as (HP & HN & _).
  destruct Hphase as [(Hf & _ & _ & Hn & _)|[(Hf & Hon & Hn & Hmore & _)|[_ Hp]]].
  - destruct Hf as (_ & _ & -> & _). rewrite Hn. nia.
  - destruct Hf as (_ & _ & -> & _). rewrite Hn. nia.
  - destruct Hp as ((q & Hidx & _ & _ & _ & _ & Hcni) & Hsub).
    destruct (batchOk_question _ _ _ _ Hb Hidx) as (Hcq & _).
    destruct Hsub as [(Hf & _)|[(Hf & _)|[(Hf & _)|(Hf & _)]]];
      destruct Hf as (Hsa & Hca & Hgr & Hfl); rewrite Hgr, Hsa;
      try rewrite Hca; try rewrite Hfl; nia.
Qed.

Lemma remaining_results (c : Component) :
  gameState c = results -> remaining c = 0.
Proof. intros H. unfold remaining. rewrite H. reflexivity. Qed.

Lemma tick_playing (w : World) :
  gameInv w -> gameState (st w) = playing ->
  gameInv (tick w) /\
  remaining (st (tick w)) = remaining (st w) - 1 /\
  (gameState (st (tick w)) = playing \/ gameState (st (tick w)) = results).
Proof.
  intros Hinv Hplay.
  destruct (pendingTimer_playing w Hinv Hplay) as (e & Ee & Hen & Hkind).
  unfold tick. rewrite Ee.
  destruct (step_gameInv e w Hinv Hen) as (Hinv' & Htimer).
  destruct (Htimer Hkind) as (Hrem & _ & Hgs).
  split; [exact Hinv'|]. split; [exact Hrem | exact Hgs].
Qed.

Lemma ticks_to_results (n : nat) :
  forall w,
    gameInv w -> gameState (st w) = playing -> remaining (st w) = Z.of_nat n ->
    gameState (st (ticks n w)) = results /\
    (forall m, (m < n)%nat -> gameState (st (ticks m w)) = playing).
Proof.
  induction n as [|n IH]; intros w Hinv Hplay Hrem.
  - pose proof (remaining_positive w Hinv Hplay). lia.
  - destruct (tick_playing w Hinv Hplay) as (Hinv' & Hrem' & [Hgs|Hgs]).
    + destruct (IH (tick w) Hinv' Hgs ltac:(lia)) as (Hend & Hbefore).
      split; [exact Hend|].
      intros [|m] Hm; [exact Hplay|]. simpl. apply Hbefore. lia.
    + pose proof (remaining_results _ Hgs) as Hzero.
      assert (n = O) as -> by lia.
      split; [exact Hgs|]. intros m Hm. assert (m = O) as -> by lia. exact Hplay.
Qed.

(** X20: started from the setup screen with settings that pass the
    checks, and left alone, the game reaches the results screen after
    exactly numQuestions * (2 * numbersPerQuestion + 2) timer firings, and
    is playing at every earlier one. *)
Theorem game_runs_to_completion (w : World) :
  reachable w -> gameState (st w) = setup -> startable (settings (st w)) ->
  let started := step ClickStart w in
  let n := Z.to_nat (numQuestions (settings (st w))
                     * (2 * numbersPerQuestion (settings (st w)) + 2)) in
  gameState (st (ticks n started)) = results /\
  (forall m, (m < n)%nat -> gameState (st (ticks m started)) = playing).
Proof.
  intros Hreach Hsetup Hok started n.
  assert (Hen : enabled w ClickStart = true) by (simpl; rewrite Hsetup; reflexivity).
  assert (Hinv : gameInv started).
  { apply reachable_gameInv. apply reachable_step; assumption. }
  assert (Est : st started
                = st (startGame (playSound buttonClick w))).
  { unfold started, step. rewrite st_commit. reflexivity. }
  rewrite (startGame_started (playSound buttonClick w) Hok) in Est.
  cbn [st] in Est.
  assert (Hplay : gameState (st started) = playing) by (rewrite Est; reflexivity).
  destruct Hok as (_ & HN & HP).
  apply ticks_to_results; try assumption.
  rewrite Est. unfold remaining, n. fields. nia.
Qed.

(** ** What reads the random source and writes the batch *)

Section AnyPost.

Variable ok : Rng -> Prop.
Hypothesis ok_advance :
  forall g, ok g -> ok (mkRng (tape g) (S (cursor g))).

Lemma returns_randomBelow_any (n : Z) : returns ok (randomBelow n) (fun _ => True).
Proof.
  unfold randomBelow. eapply returns_bind.
  - apply (returns_random_any ok ok_advance).
  - intros r _. apply returns_ret. exact I.
Qed.

Lemma returns_generateNumber_any (s : GameSettings) :
  returns ok (generateNumber s) (fun _ => True).
Proof.
  unfold generateNumber. eapply returns_bind; [apply returns_randomBelow_any|].
  intros i _. destruct (index _ i) as [[| |]|];
    (eapply returns_bind; [apply returns_randomBelow_any|]);
    intros k _; apply returns_ret; exact I.
Qed.

Lemma returns_generateQuestions_any (s : GameSettings) :
  returns ok (generateQuestions s) (fun _ => True).
Proof.
  eapply returns_weaken with (P := Forall (fun _ => True)); [|auto].
  apply returns_questionsLoop; [|constructor].
  unfold generateQuestion.
  eapply returns_bind; [apply returns_generateNumber_any|]. intros n0 _.
  eapply returns_bind with (P := fun _ => True).
  - apply (returns_loop ok s (fun _ _ => True)); [|exact I].
    intros _ l _. eapply returns_weaken.
    + apply (returns_loopBody ok ok_advance s l (fun _ => True)).
      apply returns_generateNumber_any.
    + auto.
  - intros l _. apply returns_ret. exact I.
Qed.

End AnyPost.

Lemma generateQuestions_tape (s : GameSettings) (g : Rng) :
  tape (snd (generateQuestions s g)) = tape g /\
  (cursor g <= cursor (snd (generateQuestions s g)))%nat.
Proof.
  apply (returns_generateQuestions_any
           (fun g' => tape g' = tape g /\ (cursor g <= cursor g')%nat)).
  - intros g' [Ht Hc]. simpl. split; [exact Ht | lia].
  - split; [reflexivity | lia].
Qed.

Lemma showQuestion_keeps (q : Question.t) (w : World) :
  rng (showQuestion q w) = rng w /\
  allQuestions (st (showQuestion q w)) = allQuestions (st w) /\
  settings (st (showQuestion q w)) = settings (st w).
Proof. unfold showQuestion. destruct (index _ 0); repeat split. Qed.

Lemma runLoose_keeps (cb : LooseCallback) (w : World) :
  rng (runLoose cb w) = rng w /\
  allQuestions (st (runLoose cb w)) = allQuestions (st w) /\
  settings (st (runLoose cb w)) = settings (st w).
Proof.
  destruct cb as [questions|cq qs]; unfold runLoose.
  - destruct (0 <? _); [|repeat split].
    destruct (index questions 0) as [q|]; [|repeat split].
    match goal with
    | |- context [showQuestion q ?w'] =>
        destruct (showQuestion_keeps q w') as (-> & -> & ->)
    end. repeat split.
  - destruct (index qs (cq + 1)) as [q|]; [|repeat split].
    match goal with
    | |- context [showQuestion q ?w'] =>
        destruct (showQuestion_keeps q w') as (-> & -> & ->)
    end. repeat split.
Qed.

Lemma runEffectCallback_keeps (cb : EffectCallback) (w : World) :
  rng (runEffectCallback cb w) = rng w /\
  allQuestions (st (runEffectCallback cb w)) = allQuestions (st w) /\
  settings (st (runEffectCallback cb w)) = settings (st w).
Proof.
  destruct cb as [cq qs|a|i ns|i ns]; simpl.
  - destruct (cq <? _); repeat split.
  - repeat split.
  - destruct (i <? _); [destruct (index ns (i + 1))|]; repeat split.
  - destruct (i <? _); repeat split.
Qed.

(** X21: no event changes the tape of the random source, and only Start
    advances its cursor; only Start and Restart write the batch; only a
    settings change writes the settings. *)
Theorem batch_and_random_source_frame (e : Event) (w : World) :
  tape (rng (step e w)) = tape (rng w) /\
  (cursor (rng w) <= cursor (rng (step e w)))%nat /\
  (e <> ClickStart -> rng (step e w) = rng w) /\
  (e <> ClickStart -> e <> ClickRestart ->
   allQuestions (st (step e w)) = allQuestions (st w)) /\
  ((forall newSettings, e <> ChangeSettings newSettings) ->
   settings (st (step e w)) = settings (st w)).
Proof.
  unfold step. rewrite rng_commit, st_commit.
  destruct e; unfold handle.
  - (* ClickStart *)
    destruct (startable_dec (settings (st w))) as [Hok|Hnot].
    + rewrite (startGame_started (playSound buttonClick w) Hok).
      destruct (generateQuestions_tape (settings (st w)) (rng w)) as [Ht Hc].
      split; [exact Ht|]. split; [exact Hc|].
      split; [intros H; now destruct H|]. split; [intros H; now destruct H|].
      intros _. reflexivity.
    + destruct (startGame_rejected (playSound buttonClick w) Hnot) as [message ->].
      split; [reflexivity|]. split; [simpl; lia|].
      split; [intros H; now destruct H|]. split; [intros H; now destruct H|].
      intros _. reflexivity.
  - repeat split; simpl; lia.
  - repeat split; simpl; lia.
  - split; [reflexivity|]. split; [simpl; lia|]. split; [reflexivity|].
    split; [intros _ H; now destruct H | reflexivity].
  - split; [reflexivity|]. split; [simpl; lia|]. split; [reflexivity|].
    split; [reflexivity|]. intros H. now destruct (H newSettings).
  - destruct (effectTimer w) as [t|]; [|repeat split; lia].
    match goal with
    | |- context [runEffectCallback ?cb ?w'] =>
        destruct (runEffectCallback_keeps cb w') as (-> & -> & ->)
    end. repeat split; simpl; lia.
  - destruct (nth_error (timeouts w) i) as [t|]; [|repeat split; lia].
    match goal with
    | |- context [runLoose ?cb ?w'] =>
        destruct (runLoose_keeps cb w') as (-> & -> & ->)
    end. repeat split; simpl; lia.
Qed.

(** ** Which events are possible on which screen *)

(** X22: while the game is paused the only possible events are Resume and
    Restart: no timer is pending and nothing else is offered. *)
Theorem paused_game_is_frozen (w : World) (e : Event) :
  reachable w -> gameState (st w) = paused -> enabled w e = true ->
  e = ClickResume \/ e = ClickRestart.
Proof.
  intros Hreach Hpaused Hen.
  destruct (gameInv_idle w (reachable_gameInv w Hreach)) as [Heff Ht];
    [rewrite Hpaused; discriminate|].
  destruct e; simpl in Hen; rewrite ?Hpaused, ?Heff, ?Ht in Hen;
    try discriminate; auto.
Qed.

(** X23: Get Ready cannot be interrupted: while it is shown the only
    possible event is its timeout firing. *)
Theorem get_ready_cannot_be_interrupted (w : World) (e : Event) :
  reachable w -> gameState (st w) = playing -> showingGetReady (st w) = true ->
  enabled w e = true ->
  e = TimeoutFires 0.
Proof.
  intros Hreach Hplay Hgr Hen.
  destruct (reachable_gameInv w Hreach) as (Heff & _ & Hstate).
  rewrite Hplay in Hstate.
  assert (Ht : exists t, timeouts w = [t]).
  { destruct Hstate as (_ & _ & [(_ & _ & _ & _ & Ht)|[(_ & _ & _ & _ & Ht)|[_ Hp]]]);
      [eauto | eauto |].
    destruct Hp as (_ & [(Hf & _)|[(Hf & _)|[(Hf & _)|(Hf & _)]]]);
      flags Hf; congruence. }
  destruct Ht as [t Ht].
  rewrite (gameLogic_get_ready _ Hgr) in Heff.
  destruct e; simpl in Hen; rewrite ?Hplay, ?Hgr, ?Heff, ?Ht in Hen;
    try discriminate.
  destruct i as [|i]; [reflexivity|]. destruct i; discriminate.
Qed.

(** ** Examples *)

Lemma reachable_run (es : list Event) :
  forall w, reachable w -> runnable es w = true -> reachable (run es w).
Proof.
  induction es as [|e es IH]; intros w Hreach Hrun; simpl in *.
  - exact Hreach.
  - apply andb_true_iff in Hrun. destruct Hrun as [Hen Hrest].
    apply IH; [apply reachable_step; assumption | exact Hrest].
Qed.

Lemma example_runs_reachable :
  reachable (run toGetReady freshWorld) /\
  reachable (run toFirstNumber freshWorld) /\
  reachable (run toPaused freshWorld) /\
  reachable (run toFirstAnswer freshWorld) /\
  reachable (run toSecondGetReady freshWorld) /\
  reachable (run toResults freshWorld).
Proof.
  repeat split; (apply reachable_run;
                 [apply reachable_initial | vm_compute; reflexivity]).
Qed.

Lemma example_runs_states :
  (gameState (st (run toGetReady freshWorld)) = playing /\
   showingGetReady (st (run toGetReady freshWorld)) = true) /\
  (gameState (st (run toFirstNumber freshWorld)) = playing /\
   showingGetReady (st (run toFirstNumber freshWorld)) = false /\
   showingAnswer (st (run toFirstNumber freshWorld)) = false) /\
  gameState (st (run toPaused freshWorld)) = paused /\
  (gameState (st (run toFirstAnswer freshWorld)) = playing /\
   showingGetReady (st (run toFirstAnswer freshWorld)) = false /\
   showingAnswer (st (run toFirstAnswer freshWorld)) = true) /\
  (gameState (st (run toSecondGetReady freshWorld)) = playing /\
   showingGetReady (st (run toSecondGetReady freshWorld)) = true) /\
  gameState (st (run toResults freshWorld)) = results.
Proof. repeat split; vm_compute; reflexivity. Qed.

Lemma example_runs_enabled :
  enabled (run toPaused freshWorld) ClickResume = true /\
  enabled (run toGetReady freshWorld) (TimeoutFires 0) = true.
Proof. split; vm_compute; reflexivity. Qed.

Lemma phase_flags_exclusive_witness :
  let w := run toFirstAnswer freshWorld in
  reachable w /\
  (Nat.b2n (showingAnswer (st w)) + Nat.b2n (calculatingAnswer (st w))
   + Nat.b2n (showingGetReady (st w))
   + Nat.b2n (flashingBetweenNumbers (st w)) <= 1)%nat.
Proof.
  intros w. destruct example_runs_reachable as (_ & _ & _ & Hr & _).
  split; [exact Hr | exact (phase_flags_exclusive w Hr)].
Defined.

Lemma at_most_one_timer_pending_witness :
  let w := run toPaused freshWorld in
  reachable w /\ gameState (st w) <> playing /\
  effectTimer w = None /\ timeouts w = [].
Proof.
  intros w. destruct example_runs_reachable as (_ & _ & Hr & _).
  destruct example_runs_states as (_ & _ & Hp & _).
  assert (Hne : gameState (st w) <> playing) by (unfold w; rewrite Hp; discriminate).
  split; [exact Hr|]. split; [exact Hne|].
  exact (proj2 (at_most_one_timer_pending w Hr) Hne).
Defined.

Lemma playing_always_has_a_timer_witness :
  let w := run toFirstNumber freshWorld in
  reachable w /\ gameState (st w) = playing /\
  ((effectTimer w <> None /\ timeouts w = [] /\ showingGetReady (st w) = false) \/
   (effectTimer w = None /\ (exists t, timeouts w = [t]) /\
    showingGetReady (st w) = true)).
Proof.
  intros w. destruct example_runs_reachable as (_ & Hr & _).
  destruct example_runs_states as (_ & (Hp & _) & _).
  split; [exact Hr|]. split; [exact Hp|].
  exact (playing_always_has_a_timer w Hr Hp).
Defined.

Lemma callbacks_never_throw_witness :
  let w := run toResults freshWorld in
  reachable w /\ ~ In TypeError (outputs w).
Proof.
  intros w. destruct example_runs_reachable as (_ & _ & _ & _ & _ & Hr).
  split; [exact Hr | exact (callbacks_never_throw w Hr)].
Defined.

Lemma timers_capture_current_state_witness :
  let w := run toFirstNumber freshWorld in
  reachable w /\ effectTimer w = gameLogic (st w).
Proof.
  intros w. destruct example_runs_reachable as (_ & Hr & _).
  split; [exact Hr | exact (proj1 (timers_capture_current_state w Hr))].
Defined.

Lemma batch_matches_settings_witness :
  let w := run toResults freshWorld in
  reachable w /\ gameState (st w) <> setup /\
  Z.of_nat (List.length (allQuestions (st w))) = numQuestions (settings (st w)).
Proof.
  intros w. destruct example_runs_reachable as (_ & _ & _ & _ & _ & Hr).
  destruct example_runs_states as (_ & _ & _ & _ & _ & Hg).
  assert (Hne : gameState (st w) <> setup) by (unfold w; rewrite Hg; discriminate).
  split; [exact Hr|]. split; [exact Hne|].
  exact (proj1 (batch_matches_settings w Hr Hne)).
Defined.

Lemma cursor_points_at_current_question_witness :
  let w := run toFirstAnswer freshWorld in
  reachable w /\ gameState (st w) <> setup /\ showingGetReady (st w) = false /\
  exists q,
    index (allQuestions (st w)) (currentQuestion (st w)) = Some q /\
    currentNumbers (st w) = Question.numbers q.
Proof.
  intros w. destruct example_runs_reachable as (_ & _ & _ & Hr & _).
  destruct example_runs_states as (_ & _ & _ & (Hg & Hgr & _) & _).
  assert (Hne : gameState (st w) <> setup) by (unfold w; rewrite Hg; discriminate).
  split; [exact Hr|]. split; [exact Hne|]. split; [exact Hgr|].
  destruct (cursor_points_at_current_question w Hr Hne Hgr) as (q & Hq & Hn & _).
  exists q. split; assumption.
Defined.

Lemma revealed_answer_is_correct_witness :
  let w := run toFirstAnswer freshWorld in
  reachable w /\ gameState (st w) <> setup /\ showingAnswer (st w) = true /\
  displayNumber (st w) = toString (answer (st w)).
Proof.
  intros w. destruct example_runs_reachable as (_ & _ & _ & Hr & _).
  destruct example_runs_states as (_ & _ & _ & (Hg & _ & Hsa) & _).
  assert (Hne : gameState (st w) <> setup) by (unfold w; rewrite Hg; discriminate).
  split; [exact Hr|]. split; [exact Hne|]. split; [exact Hsa|].
  exact (proj1 (revealed_answer_is_correct w Hr Hne Hsa)).
Defined.

Lemma display_follows_cursor_witness :
  let w := run toFirstNumber freshWorld in
  reachable w /\ gameState (st w) <> setup /\
  showingGetReady (st w) = false /\ showingAnswer (st w) = false /\
  if calculatingAnswer (st w)
  then displayNumber (st w) = "Calculating..."%string
  else
    (exists n, index (currentNumbers (st w)) (currentNumberIndex (st w)) = Some n /\
               displayNumber (st w) = toString n) /\
    (0 < currentNumberIndex (st w) ->
     exists op, index (currentOperations (st w)) (currentNumberIndex (st w) - 1)
                = Some op).
Proof.
  intros w. destruct example_runs_reachable as (_ & Hr & _).
  destruct example_runs_states as (_ & (Hg & Hgr & Hsa) & _).
  assert (Hne : gameState (st w) <> setup) by (unfold w; rewrite Hg; discriminate).
  split; [exact Hr|]. split; [exact Hne|]. split; [exact Hgr|]. split; [exact Hsa|].
  exact (display_follows_cursor w Hr Hne Hgr Hsa).
Defined.

Lemma get_ready_announces_a_question_witness :
  let w := run toSecondGetReady freshWorld in
  reachable w /\ gameState (st w) = playing /\ showingGetReady (st w) = true /\
  1 <= nextQuestionNumber (st w) <= numQuestions (settings (st w)).
Proof.
  intros w. destruct example_runs_reachable as (_ & _ & _ & _ & Hr & _).
  destruct example_runs_states as (_ & _ & _ & _ & (Hg & Hgr) & _).
  split; [exact Hr|]. split; [exact Hg|]. split; [exact Hgr|].
  exact (proj1 (get_ready_announces_a_question w Hr Hg Hgr)).
Defined.

Lemma progress_bar_within_range_witness :
  let w := run toFirstAnswer freshWorld in
  reachable w /\ gameState (st w) <> setup /\ showingGetReady (st w) = false /\
  (progressWidth (st w) <= 100)%Q.
Proof.
  intros w. destruct example_runs_reachable as (_ & _ & _ & Hr & _).
  destruct example_runs_states as (_ & _ & _ & (Hg & Hgr & _) & _).
  assert (Hne : gameState (st w) <> setup) by (unfold w; rewrite Hg; discriminate).
  split; [exact Hr|]. split; [exact Hne|]. split; [exact Hgr|].
  destruct (progress_bar_within_range w Hr Hne Hgr) as (_ & _ & H100 & _).
  exact H100.
Defined.

Lemma results_after_last_answer_witness :
  let w := run toResults freshWorld in
  reachable w /\ gameState (st w) = results /\
  showingAnswer (st w) = true /\
  currentQuestion (st w) = numQuestions (settings (st w)) - 1.
Proof.
  intros w. destruct example_runs_reachable as (_ & _ & _ & _ & _ & Hr).
  destruct example_runs_states as (_ & _ & _ & _ & _ & Hg).
  split; [exact Hr|]. split; [exact Hg|].
  destruct (results_after_last_answer w Hr Hg) as (Hsa & Hcq & _).
  split; assumption.
Defined.

Lemma game_runs_to_completion_witness :
  reachable freshWorld /\ gameState (st freshWorld) = setup /\
  startable (settings (st freshWorld)) /\
  gameState (st (ticks 16 (step ClickStart freshWorld))) = results.
Proof.
  assert (Hok : startable (settings (st freshWorld))).
  { unfold startable. simpl. split; [left; reflexivity | lia]. }
  split; [apply reachable_initial|]. split; [reflexivity|]. split; [exact Hok|].
  exact (proj1 (game_runs_to_completion freshWorld
                  (reachable_initial smallSettings sevenths) eq_refl Hok)).
Defined.

Lemma batch_and_random_source_frame_witness :
  let w := run toGetReady freshWorld in
  TimeoutFires 0 <> ClickStart /\
  rng (step (TimeoutFires 0) w) = rng w.
Proof.
  intros w.
  assert (Hne : TimeoutFires 0 <> ClickStart) by discriminate.
  split; [exact Hne|].
  destruct (batch_and_random_source_frame (TimeoutFires 0) w) as (_ & _ & H & _).
  exact (H Hne).
Defined.

Lemma paused_game_is_frozen_witness :
  let w := run toPaused freshWorld in
  reachable w /\ gameState (st w) = paused /\ enabled w ClickResume = true /\
  (ClickResume = ClickResume \/ ClickResume = ClickRestart).
Proof.
  intros w. destruct example_runs_reachable as (_ & _ & Hr & _).
  destruct example_runs_states as (_ & _ & Hp & _).
  destruct example_runs_enabled as (Hen & _).
  split; [exact Hr|]. split; [exact Hp|]. split; [exact Hen|].
  exact (paused_game_is_frozen w ClickResume Hr Hp Hen).
Defined.

Lemma get_ready_cannot_be_interrupted_witness :
  let w := run toGetReady freshWorld in
  reachable w /\ gameState (st w) = playing /\ showingGetReady (st w) = true /\
  enabled w (TimeoutFires 0) = true /\
  TimeoutFires 0 = TimeoutFires 0.
Proof.
  intros w. destruct example_runs_reachable as (Hr & _).
  destruct example_runs_states as ((Hg & Hgr) & _).
  destruct example_runs_enabled as (_ & Hen).
  split; [exact Hr|]. split; [exact Hg|]. split; [exact Hgr|]. split; [exact Hen|].
  exact (get_ready_cannot_be_interrupted w (TimeoutFires 0) Hr Hg Hgr Hen).
Defined.
